(** * bluetooth-obd: the OBD-II reader of [src/lib/obd.ts]

    A shallow embedding of the class [OBDReader] (the TypeScript class that
    starts at line 376 of [src/lib/obd.ts]) and of the two module functions
    [getPIDByName] and [parseOBDCommand]. The file also holds, in its
    lines 1 to 362, an older copy of the same methods written on the
    prototype, where [activePollers] and [pollerInterval] are variables
    of the module; the class is what is embedded here.

    Conventions of the embedding.
    - A JavaScript string is a [string]; the wire format is ASCII, so one
      character is one code unit.
    - A JavaScript value that may be [undefined] is an [option]:
      [None] is [undefined].
    - A [number] that is used as a count is a [Z].
    - The module-level array [queue] and the timers of the event loop live
      in a [Process]; the fields of one instance live in an [OBDReader];
      a method is a function on [St], the pair of both together with the
      events the instance has emitted so far.
    - The table [PIDS] is imported from [./obdInfo], which is not part of
      the sources at hand: it is a section variable. *)

From Stdlib Require Import List String Ascii ZArith Bool Lia DecimalString.
Import ListNotations.
Local Open Scope string_scope.
Local Open Scope list_scope.
Local Open Scope Z_scope.

Set Implicit Arguments.

(** ** JavaScript string primitives *)

Module Js.

(** [s.split(sep)] for a one-character separator: never the empty array. *)
Fixpoint split (sep : ascii) (s : string) : list string :=
  match s with
  | EmptyString => [EmptyString]
  | String c rest =>
      if Ascii.eqb c sep then EmptyString :: split sep rest
      else match split sep rest with
           | piece :: pieces => String c piece :: pieces
           | [] => [String c EmptyString]
           end
  end.

(** [s.replace(/c/g, '')]: every occurrence of [c] removed. *)
Fixpoint remove (c : ascii) (s : string) : string :=
  match s with
  | EmptyString => EmptyString
  | String a rest => if Ascii.eqb a c then remove c rest else String a (remove c rest)
  end.

(** The loop [for (i = 0; i < s.length; i += 2) out.push(s.substr(i, 2))]. *)
Fixpoint pairs (s : string) : list string :=
  match s with
  | EmptyString => []
  | String a EmptyString => [String a EmptyString]
  | String a (String b rest) => String a (String b EmptyString) :: pairs rest
  end.

(** [String(n)] for an integer [n] in the range where JavaScript prints
    plain decimal digits. *)
Definition number_to_string (n : Z) : string :=
  NilZero.string_of_int (Z.to_int n).

(** [String(v)] for a value that is a string or [undefined]. *)
Definition to_string (v : option string) : string :=
  match v with
  | Some s => s
  | None => "undefined"
  end.

(** [v + n] for a number [n]: the text of [n] is appended to a string;
    [undefined + n] is the number [NaN], printed as such once a string is
    appended to it. *)
Definition plus_number (v : option string) (n : Z) : string :=
  match v with
  | Some s => (s ++ number_to_string n)%string
  | None => "NaN"
  end.

(** [a === b] on values that are strings or [undefined]. *)
Definition strict_eq (a b : option string) : bool :=
  match a, b with
  | Some x, Some y => String.eqb x y
  | None, None => true
  | _, _ => false
  end.

(** [arr.indexOf(v)]: the first index holding [v], or [-1]. *)
Fixpoint indexOf (v : option string) (arr : list (option string)) : Z :=
  match arr with
  | [] => -1
  | x :: rest =>
      if strict_eq x v then 0
      else let i := indexOf v rest in if i <? 0 then -1 else i + 1
  end.

(** [arr.splice(start, 1)]: a negative [start] counts from the end, and a
    [start] beyond the end deletes nothing. *)
Definition splice1 {A : Type} (start : Z) (arr : list A) : list A :=
  let len := Z.of_nat (List.length arr) in
  let actual := if start <? 0 then Z.max (len + start) 0 else Z.min start len in
  firstn (Z.to_nat actual) arr ++ skipn (Z.to_nat actual + 1) arr.

End Js.

Definition prompt : ascii := ">"%char.
Definition carriage_return : ascii := Ascii.ascii_of_nat 13.
Definition space : ascii := " "%char.
Definition CR : string := String carriage_return EmptyString.

(** ** The PID table and the decode dispatcher *)

Section Decode.

(** What a [convertToUseful] formula returns. *)
Context {Value : Type}.

(** One record of [PIDS]. [convertToUseful] receives the byte tokens it is
    called with, in order; a token read beyond the end of the frame is
    [undefined]. *)
Record PidEntry : Type := {
  mode : string;
  pid : option string;
  bytes : Z;
  name : string;
  convertToUseful : list (option string) -> Value
}.

Variable PIDS : list PidEntry.

(** [reply.value]: a status literal, or a converted reading. *)
Inductive ReplyValue : Type :=
| Literal (text : string)
| Converted (v : Value).

(** The [reply] object: a field that was never assigned is [None]. *)
Record Reply : Type := {
  reply_value : option ReplyValue;
  reply_name : option string;
  reply_mode : option string;
  reply_pid : option string
}.

Definition empty_reply : Reply :=
  {| reply_value := None; reply_name := None; reply_mode := None; reply_pid := None |}.

(** [getPIDByName]: the first entry with that name gives [mode + pid], or
    [mode] alone when it has no [pid]; falling off the loop returns
    [undefined]. *)
Fixpoint getPIDByName_from (table : list PidEntry) (wanted : string) : option string :=
  match table with
  | [] => None
  | e :: rest =>
      if String.eqb (name e) wanted then
        match pid e with
        | Some p => Some (mode e ++ p)%string
        | None => Some (mode e)
        end
      else getPIDByName_from rest wanted
  end.

Definition getPIDByName (wanted : string) : option string :=
  getPIDByName_from PIDS wanted.

Definition is_status (hexString : string) : bool :=
  String.eqb hexString "NO DATA" || String.eqb hexString "OK"
  || String.eqb hexString "?" || String.eqb hexString "UNABLE TO CONNECT"
  || String.eqb hexString "SEARCHING...".

(** [valueArray[first], ..., valueArray[first + count - 1]]. *)
Definition tokens_at (valueArray : list string) (first count : nat) : list (option string) :=
  map (fun i => nth_error valueArray i) (seq first count).

(** The [switch (numberOfBytes)]: no [default] branch. *)
Definition convert_by_width (e : PidEntry) (valueArray : list string) : option ReplyValue :=
  if bytes e =? 1 then Some (Converted (convertToUseful e (tokens_at valueArray 2 1)))
  else if bytes e =? 2 then Some (Converted (convertToUseful e (tokens_at valueArray 2 2)))
  else if bytes e =? 4 then Some (Converted (convertToUseful e (tokens_at valueArray 2 4)))
  else if bytes e =? 8 then Some (Converted (convertToUseful e (tokens_at valueArray 2 8)))
  else None.

(** The widths the [switch] has a [case] for. *)
Definition supported_width (n : Z) : bool :=
  (n =? 1) || (n =? 2) || (n =? 4) || (n =? 8).

(** The first entry of a table whose [pid] is [p]. *)
Definition first_with_pid (table : list PidEntry) (p : option string) : option PidEntry :=
  find (fun e => Js.strict_eq (pid e) p) table.

(** The loop of the ["41"] branch: it stops at the first entry whose [pid]
    equals [reply.pid]. *)
Fixpoint decode_41 (table : list PidEntry) (valueArray : list string) (reply : Reply) : Reply :=
  match table with
  | [] => reply
  | e :: rest =>
      if Js.strict_eq (pid e) (reply_pid reply) then
        {| reply_value := convert_by_width e valueArray;
           reply_name := Some (name e);
           reply_mode := reply_mode reply;
           reply_pid := reply_pid reply |}
      else decode_41 rest valueArray reply
  end.

(** The loop of the ["43"] branch: no [break], so the last entry of mode
    ["03"] wins. *)
Fixpoint decode_43 (table : list PidEntry) (valueArray : list string) (reply : Reply) : Reply :=
  match table with
  | [] => reply
  | e :: rest =>
      if String.eqb (mode e) "03" then
        decode_43 rest valueArray
          {| reply_value := Some (Converted (convertToUseful e (tokens_at valueArray 1 6)));
             reply_name := Some (name e);
             reply_mode := reply_mode reply;
             reply_pid := reply_pid reply |}
      else decode_43 rest valueArray reply
  end.

(** The byte tokens of a frame: blanks removed, then cut in pairs. *)
Definition byte_tokens (hexString : string) : list string :=
  Js.pairs (Js.remove space hexString).

Definition parseOBDCommand (hexString : string) : Reply :=
  if is_status hexString then
    {| reply_value := Some (Literal hexString);
       reply_name := None; reply_mode := None; reply_pid := None |}
  else
    let valueArray := byte_tokens hexString in
    if Js.strict_eq (nth_error valueArray 0) (Some "41") then
      decode_41 PIDS valueArray
        {| reply_value := None; reply_name := None;
           reply_mode := nth_error valueArray 0;
           reply_pid := nth_error valueArray 1 |}
    else if Js.strict_eq (nth_error valueArray 0) (Some "43") then
      decode_43 PIDS valueArray
        {| reply_value := None; reply_name := None;
           reply_mode := nth_error valueArray 0;
           reply_pid := None |}
    else empty_reply.

End Decode.

Arguments PidEntry : clear implicits.
Arguments Reply : clear implicits.
Arguments ReplyValue : clear implicits.

(** ** The reader: module state, instance state and methods *)

Definition writeDelay : Z := 50.

(** The serial port behind [this.btSerial], seen from the reader: the
    buffers handed to its [write] so far (oldest first), the number of
    listeners registered for ['closed'], and whether [close] was called. *)
Record Port : Type := {
  written : list string;
  closed_listeners : nat;
  isOpen : bool
}.

Definition fresh_port : Port :=
  {| written := []; closed_listeners := 0; isOpen := true |}.

(** The two callbacks the class hands to [setInterval]. *)
Inductive Callback : Type :=
| IntervalWriter
| PollerTick.

Record Timer : Type := {
  callback : Callback;
  delay : Z
}.

(** What is shared by every instance: the module-level [queue], and the
    live interval timers of the event loop with the next free handle. *)
Record Process : Type := {
  queue : list string;
  timers : list (nat * Timer);
  next_handle : nat
}.

Definition initial_process : Process :=
  {| queue := []; timers := []; next_handle := 0 |}.

(** The fields of one instance. *)
Record OBDReader : Type := {
  connected : bool;
  receivedData : string;
  protocol : string;
  btSerial : Port;
  activePollers : list (option string);
  intervalWriter : option nat;
  pollerInterval : option nat
}.

Definition new_OBDReader : OBDReader :=
  {| connected := false; receivedData := ""; protocol := "0";
     btSerial := fresh_port; activePollers := [];
     intervalWriter := None; pollerInterval := None |}.

(** What the transport does with one [btSerial.write(buffer, cb)]: it
    returns and later calls [cb] with or without an error, or it throws. *)
Inductive WriteOutcome : Type :=
| Accepted (err : option string)
| Thrown (err : string).

Section Reader.

Context {Value Payload : Type}.
Variable PIDS : list (PidEntry Value).

(** The events of the [EventEmitter]; [Payload] is what ['dataReceived']
    carries. The application is taken to listen to ['error']: an emitter
    without such a listener throws what it is asked to emit. *)
Inductive Event : Type :=
| Error (message : string)
| DataReceived (reply : Payload)
| Connected
| Debug (message : string).

(** A method runs on the shared process and on its own instance, and adds
    to the events emitted (oldest first). *)
Record St : Type := {
  proc : Process;
  this : OBDReader;
  emitted : list Event
}.

Definition emit (ev : Event) (st : St) : St :=
  {| proc := proc st; this := this st; emitted := emitted st ++ [ev] |}.

Definition with_this (f : OBDReader -> OBDReader) (st : St) : St :=
  {| proc := proc st; this := f (this st); emitted := emitted st |}.

Definition with_proc (f : Process -> Process) (st : St) : St :=
  {| proc := f (proc st); this := this st; emitted := emitted st |}.

Definition set_queue (q : list string) (p : Process) : Process :=
  {| queue := q; timers := timers p; next_handle := next_handle p |}.

Definition set_connected (b : bool) (r : OBDReader) : OBDReader :=
  {| connected := b; receivedData := receivedData r; protocol := protocol r;
     btSerial := btSerial r; activePollers := activePollers r;
     intervalWriter := intervalWriter r; pollerInterval := pollerInterval r |}.

Definition set_receivedData (s : string) (r : OBDReader) : OBDReader :=
  {| connected := connected r; receivedData := s; protocol := protocol r;
     btSerial := btSerial r; activePollers := activePollers r;
     intervalWriter := intervalWriter r; pollerInterval := pollerInterval r |}.

Definition set_protocol (s : string) (r : OBDReader) : OBDReader :=
  {| connected := connected r; receivedData := receivedData r; protocol := s;
     btSerial := btSerial r; activePollers := activePollers r;
     intervalWriter := intervalWriter r; pollerInterval := pollerInterval r |}.

Definition set_btSerial (p : Port) (r : OBDReader) : OBDReader :=
  {| connected := connected r; receivedData := receivedData r; protocol := protocol r;
     btSerial := p; activePollers := activePollers r;
     intervalWriter := intervalWriter r; pollerInterval := pollerInterval r |}.

Definition set_activePollers (l : list (option string)) (r : OBDReader) : OBDReader :=
  {| connected := connected r; receivedData := receivedData r; protocol := protocol r;
     btSerial := btSerial r; activePollers := l;
     intervalWriter := intervalWriter r; pollerInterval := pollerInterval r |}.

Definition set_intervalWriter (h : option nat) (r : OBDReader) : OBDReader :=
  {| connected := connected r; receivedData := receivedData r; protocol := protocol r;
     btSerial := btSerial r; activePollers := activePollers r;
     intervalWriter := h; pollerInterval := pollerInterval r |}.

Definition set_pollerInterval (h : option nat) (r : OBDReader) : OBDReader :=
  {| connected := connected r; receivedData := receivedData r; protocol := protocol r;
     btSerial := btSerial r; activePollers := activePollers r;
     intervalWriter := intervalWriter r; pollerInterval := h |}.

(** [setInterval(cb, ms)]: a new live timer under a fresh handle. *)
Definition setInterval (cb : Callback) (ms : Z) (p : Process) : nat * Process :=
  (next_handle p,
   {| queue := queue p;
      timers := timers p ++ [(next_handle p, {| callback := cb; delay := ms |})];
      next_handle := S (next_handle p) |}).

(** [clearInterval(h)]: the timer of that handle is no longer live;
    [clearInterval(undefined)] does nothing. *)
Definition clearInterval (h : option nat) (p : Process) : Process :=
  match h with
  | None => p
  | Some n =>
      {| queue := queue p;
         timers := filter (fun t => negb (Nat.eqb (fst t) n)) (timers p);
         next_handle := next_handle p |}
  end.

Definition live (h : option nat) (p : Process) : option Timer :=
  match h with
  | None => None
  | Some n => option_map snd (find (fun t => Nat.eqb (fst t) n) (timers p))
  end.

(** *** [setProtocol] and [getProtocol] *)

Definition is_digit (c : ascii) : bool :=
  let n := nat_of_ascii c in (Nat.leb 48 n && Nat.leb n 57)%bool.

(** [None] is the [throw]: the pattern [/^[0-9]$/] accepts exactly the
    strings of one decimal digit. *)
Definition setProtocol (p : string) (st : St) : option St :=
  match p with
  | String c EmptyString =>
      if is_digit c then Some (with_this (set_protocol p) st) else None
  | _ => None
  end.

Definition getProtocol (st : St) : string := protocol (this st).

(** *** [write] and the callers of [write] *)

Definition push (command : string) (st : St) : St :=
  with_proc (fun p => set_queue (queue p ++ [command]) p) st.

Definition write (message : option string) (replies : option Z) (st : St) : St :=
  let replies := match replies with None => 0 | Some n => n end in
  if connected (this st) then
    if (List.length (queue (proc st)) <? 256)%nat then
      if negb (replies =? 0) then
        push (Js.plus_number message replies ++ CR)%string st
      else
        push (Js.to_string message ++ CR)%string st
    else emit (Error "Queue-overflow!") st
  else emit (Error "Bluetooth device is not connected.") st.

Definition requestValueByName (wanted : string) (st : St) : St :=
  write (getPIDByName PIDS wanted) None st.

Definition addPoller (wanted : string) (st : St) : St :=
  let stringToSend := getPIDByName PIDS wanted in
  with_this (fun r => set_activePollers (activePollers r ++ [stringToSend]) r) st.

Definition removePoller (wanted : string) (st : St) : St :=
  let stringToDelete := getPIDByName PIDS wanted in
  let index := Js.indexOf stringToDelete (activePollers (this st)) in
  with_this (fun r => set_activePollers (Js.splice1 index (activePollers r)) r) st.

Definition removeAllPollers (st : St) : St :=
  with_this (set_activePollers []) st.

(** The loop of [writePollers], on the entries still to visit. *)
Fixpoint writePollers_from (pollers : list (option string)) (st : St) : St :=
  match pollers with
  | [] => st
  | p :: rest => writePollers_from rest (write p (Some 1) st)
  end.

Definition writePollers (st : St) : St :=
  writePollers_from (activePollers (this st)) st.

Definition startPolling (interval : option Z) (st : St) : St :=
  let interval :=
    match interval with
    | Some ms => ms
    | None => Z.of_nat (List.length (activePollers (this st))) * (writeDelay * 2)
    end in
  let (h, p) := setInterval PollerTick interval (proc st) in
  {| proc := p; this := set_pollerInterval (Some h) (this st); emitted := emitted st |}.

Definition stopPolling (st : St) : St :=
  with_proc (clearInterval (pollerInterval (this st))) st.

(** *** [connect]: the callbacks it installs *)

(** The ['data'] listener; [parse] is the function each message is given
    to before ['dataReceived'] is emitted. *)
Section DataListener.

Variable parse : string -> Payload.

Fixpoint messages_loop (multipleMessages : list string) (st : St) : St :=
  match multipleMessages with
  | [] => st
  | messageString :: rest =>
      if String.eqb messageString "" then messages_loop rest st
      else
        messages_loop rest
          (with_this (set_receivedData "") (emit (DataReceived (parse messageString)) st))
  end.

Fixpoint commands_loop (arrayOfCommands : list string) (st : St) : St :=
  match arrayOfCommands with
  | [] => st
  | forString :: rest =>
      if String.eqb forString "" then commands_loop rest st
      else commands_loop rest (messages_loop (Js.split carriage_return forString) st)
  end.

Definition on_data (data : string) (st : St) : St :=
  let currentString := (receivedData (this st) ++ data)%string in
  let arrayOfCommands := Js.split prompt currentString in
  if (List.length arrayOfCommands <? 2)%nat then
    with_this (set_receivedData (hd "" arrayOfCommands)) st
  else commands_loop arrayOfCommands st.

End DataListener.

(** The success callback of [btSerial.connect], up to the point where the
    listeners are registered. *)
Definition on_connect (st : St) : St :=
  let st := with_this (set_connected true) st in
  let st := write (Some "ATZ") None st in
  let st := write (Some "ATL0") None st in
  let st := write (Some "ATS0") None st in
  let st := write (Some "ATH0") None st in
  let st := write (Some "ATE0") None st in
  let st := write (Some "ATAT2") None st in
  let st := write (Some ("ATSP" ++ protocol (this st))%string) None st in
  emit Connected st.

(** The callback of [this.intervalWriter], run once by the event loop
    while its timer is live. [queue.shift()] is evaluated before the call
    of [btSerial.write], so the command has left the queue whatever the
    transport does. *)
Definition intervalWriter_tick (outcome : WriteOutcome) (st : St) : St :=
  match queue (proc st) with
  | command :: rest =>
      if connected (this st) then
        let st := with_proc (set_queue rest) st in
        let st :=
          with_this (fun r =>
            set_btSerial {| written := written (btSerial r) ++ [command];
                            closed_listeners := closed_listeners (btSerial r);
                            isOpen := isOpen (btSerial r) |} r) st in
        match outcome with
        | Accepted None => st
        | Accepted (Some err) => emit (Error err) st
        | Thrown err =>
            let st := emit (Error ("Error while writing: " ++ err)%string) st in
            let st := emit (Error "OBD-II Listeners deactivated, connection is probably lost.") st in
            let st := with_proc (clearInterval (intervalWriter (this st))) st in
            removeAllPollers st
        end
      else st
  | [] => st
  end.

(** The end of [connect], after the call into the transport: the new port
    is stored and the drain timer is started. *)
Definition connect (st : St) : St :=
  let st := with_this (set_btSerial fresh_port) st in
  let (h, p) := setInterval IntervalWriter writeDelay (proc st) in
  {| proc := p; this := set_intervalWriter (Some h) (this st); emitted := emitted st |}.

Definition disconnect (cb : bool) (st : St) : St :=
  let st := with_proc (clearInterval (intervalWriter (this st))) st in
  let st := with_proc (set_queue []) st in
  let st :=
    with_this (fun r =>
      set_btSerial {| written := written (btSerial r);
                      closed_listeners :=
                        if cb then S (closed_listeners (btSerial r))
                        else closed_listeners (btSerial r);
                      isOpen := false |} r) st in
  with_this (set_connected false) st.

End Reader.

Arguments Event : clear implicits.
Arguments St : clear implicits.

(** The reader as it is used: ['dataReceived'] carries the reply of
    [parseOBDCommand]. *)
Definition data_listener {Value : Type} (PIDS : list (PidEntry Value))
  : string -> St (Reply Value) -> St (Reply Value) :=
  on_data (parseOBDCommand PIDS).

(** The same listener with the messages themselves as payload: the frames
    in the order in which they are given to [parseOBDCommand]. *)
Definition frame_listener : string -> St string -> St string :=
  on_data (fun messageString => messageString).

(** ** Calls from outside *)

(** What the application, the transport and the event loop can do to one
    instance. *)
Inductive Call : Type :=
| CallSetProtocol (p : string)
| CallWrite (message : option string) (replies : option Z)
| CallRequestValueByName (wanted : string)
| CallAddPoller (wanted : string)
| CallRemovePoller (wanted : string)
| CallRemoveAllPollers
| CallWritePollers
| CallStartPolling (interval : option Z)
| CallStopPolling
| CallConnect
| CallDisconnect (cb : bool)
| FireOnConnect
| FireData (data : string)
| FireIntervalWriter (outcome : WriteOutcome)
| FirePollerTick.

Section Run.

Context {Value : Type}.
Variable PIDS : list (PidEntry Value).

(** One call. A [setProtocol] that throws leaves the instance as it is; a
    timer callback is run whether or not its timer is live. *)
Definition run (c : Call) (st : St (Reply Value)) : St (Reply Value) :=
  match c with
  | CallSetProtocol p =>
      match setProtocol p st with Some st' => st' | None => st end
  | CallWrite message replies => write message replies st
  | CallRequestValueByName wanted => requestValueByName PIDS wanted st
  | CallAddPoller wanted => addPoller PIDS wanted st
  | CallRemovePoller wanted => removePoller PIDS wanted st
  | CallRemoveAllPollers => removeAllPollers st
  | CallWritePollers => writePollers st
  | CallStartPolling interval => startPolling interval st
  | CallStopPolling => stopPolling st
  | CallConnect => connect st
  | CallDisconnect cb => disconnect cb st
  | FireOnConnect => on_connect st
  | FireData data => data_listener PIDS data st
  | FireIntervalWriter outcome => intervalWriter_tick outcome st
  | FirePollerTick => writePollers st
  end.

Definition run_all (calls : list Call) (st : St (Reply Value)) : St (Reply Value) :=
  fold_left (fun st c => run c st) calls st.

(** Several instances in one process: each has its own fields and its own
    listeners, all share the [Process]. *)
Record World : Type := {
  shared : Process;
  instances : list (OBDReader * list (Event (Reply Value)))
}.

Fixpoint replace_nth {A : Type} (i : nat) (x : A) (l : list A) : list A :=
  match l, i with
  | [], _ => []
  | _ :: rest, O => x :: rest
  | y :: rest, S i' => y :: replace_nth i' x rest
  end.

(** A call on the instance of index [i]; no such instance, no effect. *)
Definition call_on (i : nat) (c : Call) (w : World) : World :=
  match nth_error (instances w) i with
  | Some (r, log) =>
      let st := run c {| proc := shared w; this := r; emitted := log |} in
      {| shared := proc st;
         instances := replace_nth i (this st, emitted st) (instances w) |}
  | None => w
  end.

End Run.

Unset Implicit Arguments.

(** ** Vocabulary of the statements *)

Fixpoint join (l : list string) : string :=
  match l with
  | [] => ""
  | s :: rest => (s ++ join rest)%string
  end.

Definition nonempty (s : string) : bool := negb (String.eqb s "").

(** A text without the two delimiters of the inbound wire format. *)
Definition strip_delimiters (s : string) : string :=
  Js.remove carriage_return (Js.remove prompt s).

Fixpoint occurs (c : ascii) (s : string) : bool :=
  match s with
  | EmptyString => false
  | String a rest => (Ascii.eqb a c || occurs c rest)%bool
  end.

(** The payloads of the ['dataReceived'] events, oldest first. *)
Fixpoint received {Payload : Type} (evs : list (Event Payload)) : list Payload :=
  match evs with
  | [] => []
  | DataReceived r :: rest => r :: received rest
  | _ :: rest => received rest
  end.

Fixpoint errors {Payload : Type} (evs : list (Event Payload)) : list string :=
  match evs with
  | [] => []
  | Error m :: rest => m :: errors rest
  | _ :: rest => errors rest
  end.

(** The chunks of the transport, delivered in order. *)
Definition feed {Payload : Type} (parse : string -> Payload)
    (chunks : list string) (st : St Payload) : St Payload :=
  fold_left (fun st data => on_data parse data st) chunks st.

Definition fresh_state {Payload : Type} : St Payload :=
  {| proc := initial_process; this := new_OBDReader; emitted := [] |}.

(** What the framer has accounted for: the frames it emitted, then what
    it still holds. *)
Definition accounted (st : St string) : string :=
  (join (received (emitted st)) ++ strip_delimiters (receivedData (this st)))%string.

(** What the loops of the listener leave behind when they have emitted
    the messages [msgs]. *)
Definition after_messages {Payload : Type} (parse : string -> Payload)
    (msgs : list string) (st : St Payload) : St Payload :=
  {| proc := proc st;
     this := match msgs with
             | [] => this st
             | _ :: _ => set_receivedData "" (this st)
             end;
     emitted := emitted st ++ map (fun m => DataReceived (parse m)) msgs |}.

(** The messages of a text that holds a prompt: every non-empty piece
    between carriage returns, of every piece between prompts. *)
Definition messages_of (arrayOfCommands : list string) : list string :=
  flat_map (fun forString => filter nonempty (Js.split carriage_return forString))
    arrayOfCommands.

(** The frames a run of chunks makes the reader emit, as texts. *)
Definition frames_fed {Payload : Type} (chunks : list string) (st : St Payload)
  : list string :=
  received (emitted (feed (fun m => m) chunks
                       {| proc := proc st; this := this st; emitted := [] |})).

(** Two hexadecimal digits, in either case. *)
Definition is_hex_digit (c : ascii) : bool :=
  let n := nat_of_ascii c in
  ((Nat.leb 48 n && Nat.leb n 57) || (Nat.leb 65 n && Nat.leb n 70)
   || (Nat.leb 97 n && Nat.leb n 102))%bool.

Definition is_hex_token (t : string) : bool :=
  match t with
  | String a (String b EmptyString) => (is_hex_digit a && is_hex_digit b)%bool
  | _ => false
  end.

(** The first entry of a table with a given name, and the command text
    that [getPIDByName] builds from an entry. *)
Definition first_with_name {Value : Type} (table : list (PidEntry Value))
    (wanted : string) : option (PidEntry Value) :=
  find (fun e => String.eqb (name e) wanted) table.

Definition command_of {Value : Type} (e : PidEntry Value) : string :=
  match pid e with
  | Some p => (mode e ++ p)%string
  | None => mode e
  end.

(** Several ticks of the drain timer in a row. *)
Definition drain {Payload : Type} (outcomes : list WriteOutcome) (st : St Payload)
  : St Payload :=
  fold_left (fun st outcome => intervalWriter_tick outcome st) outcomes st.

Definition accepted (outcome : WriteOutcome) : bool :=
  match outcome with
  | Accepted _ => true
  | Thrown _ => false
  end.

(** The fields of an instance other than the port. *)
Definition fields_but_port (r : OBDReader)
  : bool * string * string * list (option string) * option nat * option nat :=
  (connected r, receivedData r, protocol r, activePollers r,
   intervalWriter r, pollerInterval r).

(** A small table for the examples. Its formulas return the byte tokens
    they are given, so that a reply shows what was routed to the formula. *)
Definition sample_PIDS : list (PidEntry (list (option string))) :=
  [ {| mode := "01"; pid := Some "0C"; bytes := 2; name := "rpm";
       convertToUseful := fun tokens => tokens |};
    {| mode := "01"; pid := Some "0D"; bytes := 1; name := "vss";
       convertToUseful := fun tokens => tokens |};
    {| mode := "01"; pid := Some "67"; bytes := 3; name := "ect";
       convertToUseful := fun tokens => tokens |};
    {| mode := "03"; pid := None; bytes := 6; name := "requestdtc";
       convertToUseful := fun tokens => tokens |} ].

(** Several calls in a row on the instance of index [i]. *)
Definition calls_on {Value : Type} (PIDS : list (PidEntry Value)) (i : nat)
    (calls : list Call) (w : World) : World :=
  fold_left (fun w c => call_on PIDS i c w) calls w.

(** A connected reader in front of a full queue. *)
Definition full_state : St (Reply (list (option string))) :=
  {| proc := set_queue (repeat ("ATZ" ++ CR)%string 256) initial_process;
     this := set_connected true new_OBDReader;
     emitted := [] |}.

(** A world of two new instances. *)
Definition two_readers : World (Value := list (option string)) :=
  {| shared := initial_process;
     instances := [(new_OBDReader, []); (new_OBDReader, [])] |}.

(** ** [autoconnect]: the choice of a device *)

(** [\w] of a regular expression without the unicode flag. *)
Definition is_word (c : ascii) : bool :=
  let n := nat_of_ascii c in
  ((Nat.leb 48 n && Nat.leb n 57) || (Nat.leb 65 n && Nat.leb n 90)
   || Nat.eqb n 95 || (Nat.leb 97 n && Nat.leb n 122))%bool.

(** [s.replace(/\W/g, '')]. *)
Fixpoint strip_nonword (s : string) : string :=
  match s with
  | EmptyString => EmptyString
  | String c rest =>
      if is_word c then String c (strip_nonword rest) else strip_nonword rest
  end.

(** How the flag [i] compares two characters: by their upper case. *)
Definition upper (c : ascii) : ascii :=
  let n := nat_of_ascii c in
  if (Nat.leb 97 n && Nat.leb n 122)%bool then ascii_of_nat (n - 32) else c.

Fixpoint starts_with_ci (pattern s : string) : bool :=
  match pattern, s with
  | EmptyString, _ => true
  | String _ _, EmptyString => false
  | String a pattern', String b s' =>
      (Ascii.eqb (upper a) (upper b) && starts_with_ci pattern' s')%bool
  end.

(** [s.search(new RegExp(pattern, 'gi')) != -1] for a pattern made of word
    characters: such a pattern has no operator, it matches its own text
    at any place of [s], whatever the case. *)
Fixpoint search_ci (pattern s : string) : bool :=
  (starts_with_ci pattern s
   || match s with
      | EmptyString => false
      | String _ s' => search_ci pattern s'
      end)%bool.

(** The test of the ['found'] listener: [addrMatch || nameMatch]. *)
Definition device_matches (query address name : string) : bool :=
  let search := strip_nonword query in
  let addrMatch :=
    (String.eqb query "" || search_ci search (strip_nonword address))%bool in
  let nameMatch :=
    (String.eqb query "" || search_ci search (strip_nonword name))%bool in
  (addrMatch || nameMatch)%bool.

(** A text in upper case. *)
Fixpoint upper_text (s : string) : string :=
  match s with
  | EmptyString => EmptyString
  | String c rest => String (upper c) (upper_text rest)
  end.

Definition found_text (device : string * string) : string :=
  ("Found device: " ++ snd device ++ " (" ++ fst device ++ ")")%string.

Definition ignoring_text (device : string * string) : string :=
  ("Ignoring device: " ++ snd device ++ " (" ++ fst device ++ ")")%string.

(** The inquiry of [autoconnect]: the transport reports the devices it
    finds, as pairs of an address and a name, in order, and then the end
    of the search. The listener of ['found'] removes itself and the
    listener of ['finished'] at the first device that matches; the result
    is that device, whose channel is looked up next. *)
Fixpoint inquiry {Payload : Type} (query : string) (devices : list (string * string))
    (st : St Payload) : St Payload * option (string * string) :=
  match devices with
  | [] => (emit (Error "No suitable devices found") st, None)
  | device :: rest =>
      if device_matches query (fst device) (snd device) then
        (emit (Debug (found_text device)) st, Some device)
      else inquiry query rest (emit (Debug (ignoring_text device)) st)
  end.

(** ** More vocabulary *)

(** The handles of the live timers are older than the next handle. *)
Definition handles_fresh (p : Process) : Prop :=
  Forall (fun t => (fst t < next_handle p)%nat) (timers p).

(** A command of the outbound wire format: a text and a carriage return. *)
Definition terminated (command : string) : Prop :=
  exists body, command = (body ++ CR)%string.

(** Whatever waits in the queue or was handed to the port is terminated. *)
Definition wire_ok {Payload : Type} (st : St Payload) : Prop :=
  Forall terminated (queue (proc st))
  /\ Forall terminated (written (btSerial (this st))).

(** The commands that the success callback of the connection writes. *)
Definition init_commands (protocol : string) : list string :=
  map (fun c => (c ++ CR)%string)
    ["ATZ"; "ATL0"; "ATS0"; "ATH0"; "ATE0"; "ATAT2"; ("ATSP" ++ protocol)%string].

Definition decimal_digits : list string :=
  ["0"; "1"; "2"; "3"; "4"; "5"; "6"; "7"; "8"; "9"].

(** The last entry of a table whose mode is [m]. *)
Definition last_with_mode {Value : Type} (table : list (PidEntry Value)) (m : string)
  : option (PidEntry Value) :=
  find (fun e => String.eqb (mode e) m) (rev table).

(** A message of the inbound wire format: not empty, no delimiter. *)
Definition clean (m : string) : Prop :=
  m <> "" /\ occurs prompt m = false /\ occurs carriage_return m = false.

(** The success callback of the connection, the only call that connects. *)
Definition connects (c : Call) : bool :=
  match c with
  | FireOnConnect => true
  | _ => false
  end.

(** ** Strings *)

Lemma append_nil_r (s : string) : (s ++ "")%string = s.
Proof. induction s as [|a s IH]; simpl; [reflexivity | now rewrite IH]. Qed.

Lemma append_assoc (a b c : string) : ((a ++ b) ++ c = a ++ (b ++ c))%string.
Proof. induction a as [|x a IH]; simpl; [reflexivity | now rewrite IH]. Qed.

Lemma append_eq_nil (a b : string) : (a ++ b)%string = "" -> a = "" /\ b = "".
Proof. destruct a; simpl; intros H; [now split | discriminate]. Qed.

Lemma join_app (l1 l2 : list string) : join (l1 ++ l2) = (join l1 ++ join l2)%string.
Proof.
  induction l1 as [|s l1 IH]; simpl; [reflexivity|].
  now rewrite IH, append_assoc.
Qed.

Lemma remove_app (c : ascii) (a b : string) :
  Js.remove c (a ++ b) = (Js.remove c a ++ Js.remove c b)%string.
Proof.
  induction a as [|x a IH]; simpl; [reflexivity|].
  destruct (Ascii.eqb x c); simpl; now rewrite IH.
Qed.

Lemma strip_delimiters_app (a b : string) :
  strip_delimiters (a ++ b) = (strip_delimiters a ++ strip_delimiters b)%string.
Proof. unfold strip_delimiters. now rewrite !remove_app. Qed.

Lemma split_not_nil (sep : ascii) (s : string) : Js.split sep s <> [].
Proof.
  destruct s as [|c s]; simpl; [discriminate|].
  destruct (Ascii.eqb c sep); [discriminate|].
  destruct (Js.split sep s); discriminate.
Qed.

Lemma join_split (sep : ascii) (s : string) : join (Js.split sep s) = Js.remove sep s.
Proof.
  induction s as [|c s IH]; simpl; [reflexivity|].
  destruct (Ascii.eqb c sep); simpl; [exact IH|].
  pose proof (split_not_nil sep s) as Hne.
  destruct (Js.split sep s) as [|piece pieces]; [congruence|].
  simpl in *. now rewrite IH.
Qed.

(** A split into fewer than two pieces is the text itself. *)
Lemma split_single (sep : ascii) (s : string) :
  (List.length (Js.split sep s) < 2)%nat -> Js.split sep s = [s].
Proof.
  induction s as [|c s IH]; simpl; [reflexivity|].
  destruct (Ascii.eqb c sep).
  - pose proof (split_not_nil sep s). destruct (Js.split sep s); simpl; [congruence | lia].
  - pose proof (split_not_nil sep s).
    destruct (Js.split sep s) as [|piece pieces] eqn:E; [congruence|].
    simpl. intros Hlen. simpl in IH. rewrite (IH Hlen) in E.
    injection (IH Hlen) as -> ->. reflexivity.
Qed.

Lemma remove_join (c : ascii) (l : list string) :
  Js.remove c (join l) = join (map (Js.remove c) l).
Proof.
  induction l as [|s l IH]; simpl; [reflexivity|].
  now rewrite remove_app, IH.
Qed.

Lemma join_filter_nonempty (l : list string) : join (filter nonempty l) = join l.
Proof.
  induction l as [|s l IH]; simpl; [reflexivity|].
  unfold nonempty at 1. destruct (String.eqb_spec s ""); simpl.
  - subst. exact IH.
  - now rewrite IH.
Qed.

Lemma join_flat_map (f : string -> list string) (l : list string) :
  join (flat_map f l) = join (map (fun s => join (f s)) l).
Proof.
  induction l as [|s l IH]; simpl; [reflexivity|].
  now rewrite join_app, IH.
Qed.

(** The pieces of a split do not contain the separator. *)
Lemma split_pieces_free (sep : ascii) (s : string) :
  Forall (fun piece => occurs sep piece = false) (Js.split sep s).
Proof.
  induction s as [|c s IH]; simpl.
  - constructor; [reflexivity | constructor].
  - destruct (Ascii.eqb c sep) eqn:E.
    + constructor; [reflexivity | exact IH].
    + pose proof (split_not_nil sep s).
      destruct (Js.split sep s) as [|piece pieces]; [congruence|].
      inversion IH; subst. constructor; [|assumption].
      simpl. now rewrite E.
Qed.

Lemma split_keeps_free (c sep : ascii) (s : string) :
  occurs c s = false -> Forall (fun piece => occurs c piece = false) (Js.split sep s).
Proof.
  induction s as [|a s IH]; simpl; intros H.
  - constructor; [reflexivity | constructor].
  - apply orb_false_iff in H as [Ha Hs]. specialize (IH Hs).
    destruct (Ascii.eqb a sep).
    + constructor; [reflexivity | exact IH].
    + pose proof (split_not_nil sep s).
      destruct (Js.split sep s) as [|piece pieces]; [congruence|].
      inversion IH; subst. constructor; [|assumption].
      simpl. now rewrite Ha.
Qed.

(** ** The response framer *)

Section Framer.

Context {Payload : Type}.
Variable parse : string -> Payload.

Lemma received_app (a b : list (Event Payload)) :
  received (a ++ b) = received a ++ received b.
Proof.
  induction a as [|ev a IH]; simpl; [reflexivity|].
  destruct ev; simpl; now rewrite IH.
Qed.

Lemma errors_app (a b : list (Event Payload)) :
  errors (a ++ b) = errors a ++ errors b.
Proof.
  induction a as [|ev a IH]; simpl; [reflexivity|].
  destruct ev; simpl; now rewrite IH.
Qed.

Lemma after_messages_app (a b : list string) (st : St Payload) :
  after_messages parse b (after_messages parse a st) = after_messages parse (a ++ b) st.
Proof.
  unfold after_messages. simpl. f_equal.
  - destruct a, b; reflexivity.
  - now rewrite map_app, app_assoc.
Qed.

Lemma after_messages_nil (st : St Payload) : after_messages parse [] st = st.
Proof. destruct st. unfold after_messages. simpl. now rewrite app_nil_r. Qed.

Lemma messages_loop_spec (multipleMessages : list string) (st : St Payload) :
  messages_loop parse multipleMessages st
  = after_messages parse (filter nonempty multipleMessages) st.
Proof.
  revert st. induction multipleMessages as [|m ms IH]; intros st; simpl.
  - now rewrite after_messages_nil.
  - unfold nonempty at 1. destruct (String.eqb m ""); simpl.
    + apply IH.
    + rewrite IH.
      change (with_this (set_receivedData "") (emit (DataReceived (parse m)) st))
        with (after_messages parse [m] st).
      now rewrite after_messages_app.
Qed.

Lemma commands_loop_spec (arrayOfCommands : list string) (st : St Payload) :
  commands_loop parse arrayOfCommands st
  = after_messages parse (messages_of arrayOfCommands) st.
Proof.
  revert st. induction arrayOfCommands as [|c cs IH]; intros st; simpl.
  - now rewrite after_messages_nil.
  - destruct (String.eqb_spec c "").
    + subst. simpl. apply IH.
    + rewrite IH, messages_loop_spec. apply after_messages_app.
Qed.

Lemma join_messages_of (currentString : string) :
  join (messages_of (Js.split prompt currentString)) = strip_delimiters currentString.
Proof.
  unfold messages_of, strip_delimiters.
  rewrite join_flat_map, <- (join_split prompt currentString), remove_join.
  f_equal. apply map_ext. intros piece.
  now rewrite join_filter_nonempty, join_split.
Qed.

Lemma messages_of_clean (currentString : string) :
  Forall (fun m => m <> "" /\ occurs prompt m = false /\ occurs carriage_return m = false)
    (messages_of (Js.split prompt currentString)).
Proof.
  unfold messages_of.
  pose proof (split_pieces_free prompt currentString) as Hfree.
  induction Hfree as [|piece pieces Hp _ IH]; simpl; [constructor|].
  apply Forall_app. split; [|exact IH].
  apply Forall_forall. intros m Hm. apply filter_In in Hm as [Hin Hne].
  pose proof (split_keeps_free prompt carriage_return piece Hp) as H1.
  pose proof (split_pieces_free carriage_return piece) as H2.
  rewrite Forall_forall in H1, H2.
  repeat split; [|now apply H1 | now apply H2].
  unfold nonempty in Hne. intros ->. discriminate.
Qed.

(** One chunk: the listener either keeps the whole text, or emits its
    messages. *)
Lemma on_data_spec (data : string) (st : St Payload) :
  let currentString := (receivedData (this st) ++ data)%string in
  on_data parse data st
  = if (List.length (Js.split prompt currentString) <? 2)%nat
    then with_this (set_receivedData currentString) st
    else after_messages parse (messages_of (Js.split prompt currentString)) st.
Proof.
  intros currentString. unfold on_data. fold currentString.
  destruct (Nat.ltb_spec (List.length (Js.split prompt currentString)) 2) as [Hlt|Hge].
  - now rewrite (split_single _ _ Hlt).
  - apply commands_loop_spec.
Qed.

End Framer.

Lemma received_map_id (msgs : list string) :
  received (map (fun m => DataReceived m) msgs) = msgs.
Proof. induction msgs as [|m msgs IH]; simpl; [reflexivity | now rewrite IH]. Qed.

(** Byte conservation, one chunk. *)
Lemma accounted_step (data : string) (st : St string) :
  accounted (frame_listener data st) = (accounted st ++ strip_delimiters data)%string.
Proof.
  unfold frame_listener. rewrite on_data_spec.
  set (cur := (receivedData (this st) ++ data)%string).
  assert (Hcur : strip_delimiters cur
                 = (strip_delimiters (receivedData (this st)) ++ strip_delimiters data)%string)
    by apply strip_delimiters_app.
  destruct (List.length (Js.split prompt cur) <? 2)%nat.
  - unfold accounted. simpl. now rewrite Hcur, append_assoc.
  - pose proof (join_messages_of cur) as Hjoin.
    unfold accounted, after_messages. simpl.
    rewrite received_app, received_map_id, join_app, append_assoc.
    rewrite append_assoc. f_equal.
    destruct (messages_of (Js.split prompt cur)) as [|m msgs] eqn:E.
    + simpl in *. rewrite <- Hjoin in Hcur. symmetry in Hcur.
      apply append_eq_nil in Hcur as [-> ->]. reflexivity.
    + simpl (strip_delimiters _). rewrite append_nil_r. now rewrite Hjoin, Hcur.
Qed.

Lemma accounted_feed (chunks : list string) (st : St string) :
  accounted (feed (fun m => m) chunks st)
  = (accounted st ++ strip_delimiters (join chunks))%string.
Proof.
  revert st. induction chunks as [|data chunks IH]; intros st; simpl.
  - now rewrite append_nil_r.
  - unfold feed in *. simpl. rewrite IH.
    change (on_data (fun m => m) data st) with (frame_listener data st).
    now rewrite accounted_step, strip_delimiters_app, append_assoc.
Qed.

(** The listener looks at the text only: whatever the payload, the same
    messages are emitted and the same instance is left. *)
Lemma on_data_natural {Payload : Type} (parse : string -> Payload) (data : string)
    (st1 : St Payload) (st2 : St string) :
  proc st1 = proc st2 -> this st1 = this st2 ->
  exists new,
    emitted (frame_listener data st2) = emitted st2 ++ map (fun m => DataReceived m) new
    /\ emitted (on_data parse data st1)
       = emitted st1 ++ map (fun m => DataReceived (parse m)) new
    /\ proc (on_data parse data st1) = proc (frame_listener data st2)
    /\ this (on_data parse data st1) = this (frame_listener data st2).
Proof.
  intros Hproc Hthis. unfold frame_listener. rewrite !on_data_spec, <- Hthis.
  destruct (List.length
              (Js.split prompt (receivedData (this st1) ++ data)%string) <? 2)%nat.
  - exists []. simpl. rewrite !app_nil_r, Hthis. auto.
  - exists (messages_of (Js.split prompt (receivedData (this st1) ++ data)%string)).
    unfold after_messages. simpl. rewrite Hthis. auto.
Qed.

Lemma feed_natural {Payload : Type} (parse : string -> Payload) (chunks : list string) :
  forall (st1 : St Payload) (st2 : St string),
  proc st1 = proc st2 -> this st1 = this st2 ->
  exists new,
    emitted (feed (fun m => m) chunks st2) = emitted st2 ++ map (fun m => DataReceived m) new
    /\ emitted (feed parse chunks st1)
       = emitted st1 ++ map (fun m => DataReceived (parse m)) new
    /\ proc (feed parse chunks st1) = proc (feed (fun m => m) chunks st2)
    /\ this (feed parse chunks st1) = this (feed (fun m => m) chunks st2).
Proof.
  induction chunks as [|data chunks IH]; intros st1 st2 Hproc Hthis.
  - exists []. simpl. rewrite !app_nil_r. auto.
  - destruct (on_data_natural parse data st1 st2 Hproc Hthis)
      as (new1 & E2 & E1 & Hp & Ht).
    destruct (IH _ _ Hp Ht) as (new2 & F2 & F1 & Hp' & Ht').
    exists (new1 ++ new2). unfold feed in *. simpl.
    change (on_data (fun m => m) data st2) with (frame_listener data st2).
    rewrite F2, F1, E2, E1, !map_app, !app_assoc. auto.
Qed.

Lemma feed_frames {Payload : Type} (parse : string -> Payload) (chunks : list string)
    (st : St Payload) :
  emitted (feed parse chunks st)
  = emitted st ++ map (fun m => DataReceived (parse m)) (frames_fed chunks st)
  /\ this (feed parse chunks st)
     = this (feed (fun m => m) chunks {| proc := proc st; this := this st; emitted := [] |}).
Proof.
  destruct (feed_natural parse chunks st
              {| proc := proc st; this := this st; emitted := [] |} eq_refl eq_refl)
    as (new & F2 & F1 & _ & Ht).
  unfold frames_fed. rewrite F2, F1. simpl. rewrite received_map_id. auto.
Qed.

Lemma frames_fed_clean {Payload : Type} (chunks : list string) :
  forall st : St Payload,
  Forall (fun m => m <> "" /\ occurs prompt m = false /\ occurs carriage_return m = false)
    (frames_fed chunks st).
Proof.
  unfold frames_fed.
  assert (H : forall st2 : St string,
            Forall (fun m => m <> "" /\ occurs prompt m = false
                             /\ occurs carriage_return m = false) (received (emitted st2)) ->
            Forall (fun m => m <> "" /\ occurs prompt m = false
                             /\ occurs carriage_return m = false)
              (received (emitted (feed (fun m => m) chunks st2)))).
  { induction chunks as [|data chunks IH]; intros st2 H0; [exact H0|].
    unfold feed in *. simpl. apply IH. rewrite on_data_spec.
    destruct (List.length _ <? 2)%nat; [exact H0|].
    unfold after_messages. simpl. rewrite received_app, received_map_id.
    apply Forall_app. split; [exact H0 | apply messages_of_clean]. }
  intros st. apply H. constructor.
Qed.

Section FramerConservation.

Context {Value : Type}.
Variable PIDS : list (PidEntry Value).

(** C1. The response framer loses no byte. For every run of chunks given
    to the ['data'] listener, from any state of the reader: the events
    emitted are exactly one ['dataReceived'] per frame, carrying
    [parseOBDCommand] of the frame, in order; every frame is non-empty
    and free of delimiters; and the text held before together with the
    chunks received is, delimiters aside, the frames emitted followed by
    what [receivedData] holds afterwards. In particular the text
    ["41 0C 1A F8>"] in one chunk, or cut as ["41 0C 1A"] then ["F8>"],
    emits one and the same ['dataReceived'] reply, exactly once, and
    leaves [receivedData] empty. *)
Theorem C1_framer_conserves_bytes :
  (forall (chunks : list string) (st : St (Reply Value)),
     let st' := feed (parseOBDCommand PIDS) chunks st in
     let frames := frames_fed chunks st in
     emitted st' = emitted st ++ map (fun m => DataReceived (parseOBDCommand PIDS m)) frames
     /\ Forall (fun m => m <> "" /\ occurs prompt m = false
                         /\ occurs carriage_return m = false) frames
     /\ strip_delimiters (receivedData (this st) ++ join chunks)
        = (join frames ++ strip_delimiters (receivedData (this st')))%string)
  /\ (let one := feed (parseOBDCommand PIDS) ["41 0C 1A F8>"] fresh_state in
      let first := feed (parseOBDCommand PIDS) ["41 0C 1A"] fresh_state in
      let two := feed (parseOBDCommand PIDS) ["41 0C 1A"; "F8>"] fresh_state in
      emitted one = [DataReceived (parseOBDCommand PIDS "410C1AF8")]
      /\ receivedData (this one) = ""
      /\ emitted first = [] /\ receivedData (this first) = "41 0C 1A"
      /\ emitted two = [DataReceived (parseOBDCommand PIDS "410C1AF8")]
      /\ receivedData (this two) = "").
Proof.
  split.
  - intros chunks st st' frames.
    destruct (feed_frames (parseOBDCommand PIDS) chunks st) as [Hem Hthis].
    split; [exact Hem|]. split; [apply frames_fed_clean|].
    subst st' frames. rewrite Hthis.
    pose proof (accounted_feed chunks
                  {| proc := proc st; this := this st; emitted := [] |}) as Hacc.
    unfold accounted in Hacc. simpl in Hacc.
    unfold frames_fed. rewrite Hacc. apply strip_delimiters_app.
  - repeat split; reflexivity.
Qed.

End FramerConservation.

(** ** The decode dispatcher *)

Section Dispatcher.

Context {Value : Type}.
Variable PIDS : list (PidEntry Value).

Lemma strict_eq_true (a b : option string) : Js.strict_eq a b = true <-> a = b.
Proof.
  destruct a as [x|], b as [y|]; simpl; split; intros H;
    try discriminate; try reflexivity.
  - apply String.eqb_eq in H. now subst.
  - injection H as ->. apply String.eqb_refl.
Qed.

Lemma strict_eq_false (a b : option string) : Js.strict_eq a b = false <-> a <> b.
Proof.
  rewrite <- strict_eq_true. destruct (Js.strict_eq a b); split; congruence.
Qed.

Lemma decode_41_spec (table : list (PidEntry Value)) (valueArray : list string)
    (reply : Reply Value) :
  decode_41 table valueArray reply
  = match first_with_pid table (reply_pid reply) with
    | Some e => {| reply_value := convert_by_width e valueArray;
                   reply_name := Some (name e);
                   reply_mode := reply_mode reply;
                   reply_pid := reply_pid reply |}
    | None => reply
    end.
Proof.
  unfold first_with_pid.
  induction table as [|e table IH]; simpl; [reflexivity|].
  destruct (Js.strict_eq (pid e) (reply_pid reply)); [reflexivity | exact IH].
Qed.

Lemma first_with_pid_some (table : list (PidEntry Value)) (p : option string)
    (e : PidEntry Value) :
  first_with_pid table p = Some e -> In e table /\ pid e = p.
Proof.
  unfold first_with_pid. intros H. apply find_some in H as [Hin Heq].
  split; [exact Hin | now apply strict_eq_true].
Qed.

Lemma first_with_pid_none (table : list (PidEntry Value)) (p : option string) :
  first_with_pid table p = None <-> (forall e, In e table -> pid e <> p).
Proof.
  unfold first_with_pid. split.
  - intros H e Hin. apply strict_eq_false. exact (find_none _ _ H e Hin).
  - intros H. induction table as [|e table IH]; simpl; [reflexivity|].
    destruct (Js.strict_eq (pid e) p) eqn:E.
    + apply strict_eq_true in E. exfalso. apply (H e); [now left | exact E].
    + apply IH. intros e' Hin. apply H. now right.
Qed.

Lemma first_with_pid_exists (table : list (PidEntry Value)) (p : option string)
    (e0 : PidEntry Value) :
  In e0 table -> pid e0 = p -> exists e, first_with_pid table p = Some e.
Proof.
  intros Hin Hp. destruct (first_with_pid table p) as [e|] eqn:E; [now exists e|].
  exfalso. exact (proj1 (first_with_pid_none table p) E e0 Hin Hp).
Qed.

(** A status literal is not a frame of mode ["41"]. *)
Lemma status_first_token (hexString : string) :
  is_status hexString = true -> nth_error (byte_tokens hexString) 0 <> Some "41".
Proof.
  unfold is_status. rewrite !orb_true_iff, !String.eqb_eq.
  intros [[[[-> | ->] | ->] | ->] | ->]; vm_compute; discriminate.
Qed.

Lemma parse_41 (hexString : string) :
  nth_error (byte_tokens hexString) 0 = Some "41" ->
  parseOBDCommand PIDS hexString
  = decode_41 PIDS (byte_tokens hexString)
      {| reply_value := None; reply_name := None;
         reply_mode := Some "41";
         reply_pid := nth_error (byte_tokens hexString) 1 |}.
Proof.
  intros H0. unfold parseOBDCommand.
  destruct (is_status hexString) eqn:Est.
  - exfalso. exact (status_first_token _ Est H0).
  - rewrite H0. reflexivity.
Qed.

Lemma convert_by_width_supported (e : PidEntry Value) (valueArray : list string) :
  supported_width (bytes e) = true ->
  convert_by_width e valueArray
  = Some (Converted (convertToUseful e (tokens_at valueArray 2 (Z.to_nat (bytes e))))).
Proof.
  unfold supported_width, convert_by_width. intros H.
  destruct (Z.eqb_spec (bytes e) 1) as [->|_]; [reflexivity|].
  destruct (Z.eqb_spec (bytes e) 2) as [->|_]; [reflexivity|].
  destruct (Z.eqb_spec (bytes e) 4) as [->|_]; [reflexivity|].
  destruct (Z.eqb_spec (bytes e) 8) as [->|_]; [reflexivity|].
  discriminate.
Qed.

Lemma convert_by_width_unsupported (e : PidEntry Value) (valueArray : list string) :
  supported_width (bytes e) = false -> convert_by_width e valueArray = None.
Proof.
  unfold supported_width, convert_by_width. intros H.
  destruct (bytes e =? 1); [discriminate|].
  destruct (bytes e =? 2); [discriminate|].
  destruct (bytes e =? 4); [discriminate|].
  destruct (bytes e =? 8); [discriminate | reflexivity].
Qed.

(** C5, as the code has it. A frame of mode ["41"] with a known PID. For
    every frame whose first byte token is ["41"] and whose second byte
    token is [p]: if some entry of the PID table has the pid [p], then
    the first such entry [e] exists and the reply has the mode ["41"],
    the pid [p] and the name of [e]; when the declared width of [e] is 1,
    2, 4 or 8, the reply has as value the formula of [e] applied to
    exactly [bytes e] byte tokens, those that follow the pid; if no entry
    has the pid [p], the reply has the mode and the pid only. The decoder
    is a total function: no error is raised in either case. So the frame
    ["410C1AF8"] is decoded by the formula of the entry of pid ["0C"], of
    width 2, applied to ["1A"] and ["F8"]. *)
Theorem C5_decode_known_pid :
  forall (hexString p : string),
    nth_error (byte_tokens hexString) 0 = Some "41" ->
    nth_error (byte_tokens hexString) 1 = Some p ->
    (forall e0, In e0 PIDS -> pid e0 = Some p ->
       exists e, first_with_pid PIDS (Some p) = Some e /\ In e PIDS /\ pid e = Some p)
    /\ (forall e, first_with_pid PIDS (Some p) = Some e ->
          supported_width (bytes e) = true ->
          parseOBDCommand PIDS hexString
          = {| reply_value :=
                 Some (Converted (convertToUseful e
                   (tokens_at (byte_tokens hexString) 2 (Z.to_nat (bytes e)))));
               reply_name := Some (name e);
               reply_mode := Some "41";
               reply_pid := Some p |})
    /\ ((forall e, In e PIDS -> pid e <> Some p) ->
          parseOBDCommand PIDS hexString
          = {| reply_value := None; reply_name := None;
               reply_mode := Some "41"; reply_pid := Some p |})
    /\ (forall e, hexString = "410C1AF8" -> first_with_pid PIDS (Some p) = Some e ->
          bytes e = 2 ->
          p = "0C"
          /\ parseOBDCommand PIDS hexString
             = {| reply_value :=
                    Some (Converted (convertToUseful e [Some "1A"; Some "F8"]));
                  reply_name := Some (name e);
                  reply_mode := Some "41";
                  reply_pid := Some "0C" |})
    /\ (forall e, first_with_pid PIDS (Some p) = Some e ->
          reply_mode (parseOBDCommand PIDS hexString) = Some "41"
          /\ reply_pid (parseOBDCommand PIDS hexString) = Some p
          /\ reply_name (parseOBDCommand PIDS hexString) = Some (name e)).
Proof.
  intros hexString p H0 H1.
  pose proof (parse_41 hexString H0) as Hparse.
  rewrite H1, decode_41_spec in Hparse. simpl in Hparse.
  assert (Hfull : forall e, first_with_pid PIDS (Some p) = Some e ->
            supported_width (bytes e) = true ->
            parseOBDCommand PIDS hexString
            = {| reply_value :=
                   Some (Converted (convertToUseful e
                     (tokens_at (byte_tokens hexString) 2 (Z.to_nat (bytes e)))));
                 reply_name := Some (name e);
                 reply_mode := Some "41";
                 reply_pid := Some p |}).
  { intros e He Hw. rewrite Hparse, He. now rewrite convert_by_width_supported. }
  split; [|split; [exact Hfull | split; [|split]]].
  - intros e0 Hin Hp.
    destruct (first_with_pid_exists PIDS (Some p) e0 Hin Hp) as [e He].
    exists e. split; [exact He|]. now apply first_with_pid_some.
  - intros Hnone. apply first_with_pid_none in Hnone. now rewrite Hparse, Hnone.
  - intros e -> He Hb.
    assert (p = "0C") as -> by (vm_compute in H1; congruence).
    split; [reflexivity|].
    rewrite (Hfull e He) by (unfold supported_width; rewrite Hb; reflexivity).
    rewrite Hb. reflexivity.
  - intros e He. rewrite Hparse, He. simpl. auto.
Qed.

End Dispatcher.

Lemma C5_decode_known_pid_witness :
  parseOBDCommand sample_PIDS "410C1AF8"
  = {| reply_value := Some (Converted [Some "1A"; Some "F8"]);
       reply_name := Some "rpm";
       reply_mode := Some "41";
       reply_pid := Some "0C" |}
  /\ parseOBDCommand sample_PIDS "41 0d 2a"
     = {| reply_value := None; reply_name := None;
          reply_mode := Some "41"; reply_pid := Some "0d" |}.
Proof.
  split.
  - destruct (C5_decode_known_pid sample_PIDS "410C1AF8" "0C" eq_refl eq_refl)
      as (_ & Hfull & _ & _).
    exact (Hfull _ eq_refl eq_refl).
  - destruct (C5_decode_known_pid sample_PIDS "41 0d 2a" "0d" eq_refl eq_refl)
      as (_ & _ & Hnone & _).
    apply Hnone. simpl. intros e [<-|[<-|[<-|[<-|[]]]]]; discriminate.
Defined.

(** The entry of pid ["67"] matches the second byte token of the frame
    ["41670A0B0C"] and declares three bytes: the reply has no value, and
    so not the formula of the entry applied to the three tokens that
    follow the pid. *)
Lemma C5_counterexample :
  let r := parseOBDCommand sample_PIDS "41670A0B0C" in
  nth_error (byte_tokens "41670A0B0C") 0 = Some "41"
  /\ nth_error (byte_tokens "41670A0B0C") 1 = Some "67"
  /\ option_map (fun e => (pid e, bytes e)) (first_with_pid sample_PIDS (Some "67"))
     = Some (Some "67", 3)
  /\ reply_name r = Some "ect"
  /\ reply_value r = None
  /\ reply_value r <> Some (Converted [Some "0A"; Some "0B"; Some "0C"]).
Proof.
  repeat split; try reflexivity. discriminate.
Qed.

(** The ['data'] listener emits ['dataReceived'] events only. *)
Lemma feed_no_error {Payload : Type} (parse : string -> Payload) (chunks : list string)
    (st : St Payload) :
  errors (emitted (feed parse chunks st)) = errors (emitted st).
Proof.
  destruct (feed_frames parse chunks st) as [-> _].
  rewrite errors_app.
  induction (frames_fed chunks st) as [|m ms IH]; simpl; [apply app_nil_r | exact IH].
Qed.

Lemma feed_received {Payload : Type} (parse : string -> Payload) (chunks : list string)
    (st : St Payload) :
  received (emitted (feed parse chunks st))
  = received (emitted st) ++ map parse (frames_fed chunks st).
Proof.
  destruct (feed_frames parse chunks st) as [-> _].
  rewrite received_app. f_equal.
  induction (frames_fed chunks st) as [|m ms IH]; simpl; [reflexivity | now rewrite IH].
Qed.

Lemma hex_token_41_43 (t : string) : is_hex_token t = false -> t <> "41" /\ t <> "43".
Proof. intros H. split; intros ->; vm_compute in H; discriminate. Qed.

Section DispatcherErrors.

Context {Value : Type}.
Variable PIDS : list (PidEntry Value).

(** C6, as the code has it. The decoder does not validate byte tokens and
    has no malformed-frame error. A frame that is not a status literal
    and whose first byte token is not two hexadecimal digits is decoded
    to the empty reply. Whatever the tokens of the frames, the ['data']
    listener reports no error and emits one ['dataReceived'] per frame:
    decoding is not aborted. *)
Theorem C6_no_malformed_frame_error :
  (forall (hexString t : string),
     is_status hexString = false ->
     nth_error (byte_tokens hexString) 0 = Some t ->
     is_hex_token t = false ->
     parseOBDCommand PIDS hexString = empty_reply)
  /\ (forall (chunks : list string) (st : St (Reply Value)),
        let st' := feed (parseOBDCommand PIDS) chunks st in
        errors (emitted st') = errors (emitted st)
        /\ received (emitted st')
           = received (emitted st) ++ map (parseOBDCommand PIDS) (frames_fed chunks st)).
Proof.
  split.
  - intros hexString t Hst H0 Hhex.
    destruct (hex_token_41_43 t Hhex) as [H41 H43].
    unfold parseOBDCommand. rewrite Hst, H0. simpl.
    destruct (String.eqb_spec t "41"); [contradiction|].
    destruct (String.eqb_spec t "43"); [contradiction | reflexivity].
  - intros chunks st st'. split; [apply feed_no_error | apply feed_received].
Qed.

(** C7, as the code has it. When a frame of mode ["41"] meets an entry
    whose declared width is not 1, 2, 4 or 8, decoding does not fail: the
    [switch] has no branch for the width, and the reply carries the mode,
    the pid and the name of the entry, without a value. The listener
    reports no error. *)
Theorem C7_other_width_no_value :
  (forall (hexString p : string) (e : PidEntry Value),
     nth_error (byte_tokens hexString) 0 = Some "41" ->
     nth_error (byte_tokens hexString) 1 = Some p ->
     first_with_pid PIDS (Some p) = Some e ->
     supported_width (bytes e) = false ->
     parseOBDCommand PIDS hexString
     = {| reply_value := None;
          reply_name := Some (name e);
          reply_mode := Some "41";
          reply_pid := Some p |})
  /\ (forall (chunks : list string) (st : St (Reply Value)),
        errors (emitted (feed (parseOBDCommand PIDS) chunks st)) = errors (emitted st)).
Proof.
  split.
  - intros hexString p e H0 H1 He Hw.
    rewrite (parse_41 PIDS hexString H0), H1, decode_41_spec. simpl.
    now rewrite He, convert_by_width_unsupported.
  - intros chunks st. apply feed_no_error.
Qed.

End DispatcherErrors.

Lemma C6_no_malformed_frame_error_witness :
  parseOBDCommand sample_PIDS "ZZ0C" = empty_reply.
Proof.
  exact (proj1 (C6_no_malformed_frame_error sample_PIDS) "ZZ0C" "ZZ"
           eq_refl eq_refl eq_refl).
Defined.

(** The frame ["ZZ0C"] holds a token that is not hexadecimal: the reader
    emits a ['dataReceived'] with the empty reply and no error. The frame
    ["410CZZ11"] has a malformed data byte: it is routed to the formula
    all the same. *)
Lemma C6_counterexample :
  is_hex_token "ZZ" = false
  /\ (let st := feed (parseOBDCommand sample_PIDS) ["ZZ0C>"] fresh_state in
      emitted st = [DataReceived empty_reply]
      /\ ~ (exists message, In (Error message) (emitted st)))
  /\ (let st := feed (parseOBDCommand sample_PIDS) ["410CZZ11>"] fresh_state in
      emitted st
      = [DataReceived {| reply_value := Some (Converted [Some "ZZ"; Some "11"]);
                         reply_name := Some "rpm";
                         reply_mode := Some "41";
                         reply_pid := Some "0C" |}]
      /\ ~ (exists message, In (Error message) (emitted st))).
Proof.
  split; [reflexivity|].
  split; (split; [reflexivity|]); intros [message [H|[]]]; discriminate.
Qed.

Lemma C7_other_width_no_value_witness :
  parseOBDCommand sample_PIDS "41670A0B0C"
  = {| reply_value := None;
       reply_name := Some "ect";
       reply_mode := Some "41";
       reply_pid := Some "67" |}.
Proof.
  exact (proj1 (C7_other_width_no_value sample_PIDS) "41670A0B0C" "67" _
           eq_refl eq_refl eq_refl eq_refl).
Defined.

(** The entry of pid ["67"] declares three bytes: the reader emits a
    reply without a value, and no error. *)
Lemma C7_counterexample :
  let st := feed (parseOBDCommand sample_PIDS) ["41670A0B0C>"] fresh_state in
  option_map (fun e => bytes e) (first_with_pid sample_PIDS (Some "67")) = Some 3
  /\ emitted st
     = [DataReceived {| reply_value := None;
                        reply_name := Some "ect";
                        reply_mode := Some "41";
                        reply_pid := Some "67" |}]
  /\ ~ (exists message, In (Error message) (emitted st)).
Proof.
  split; [reflexivity|]. split; [reflexivity|].
  intros [message [H|[]]]; discriminate.
Qed.

(** ** The command queue *)

Section Queue.

Context {Payload : Type}.

(** The text that [write] appends for a message and a reply count. *)
Lemma write_enqueues_any (message : option string) (r : Z) (st : St Payload) :
  connected (this st) = true ->
  (List.length (queue (proc st)) < 256)%nat ->
  write message (Some r) st
  = push ((if (r =? 0)%Z then Js.to_string message else Js.plus_number message r)
          ++ CR)%string st.
Proof.
  intros Hc Hlen. unfold write. rewrite Hc.
  apply Nat.ltb_lt in Hlen. rewrite Hlen.
  now destruct (r =? 0).
Qed.

Lemma write_enqueues (c : string) (r : Z) (st : St Payload) :
  connected (this st) = true ->
  (List.length (queue (proc st)) < 256)%nat ->
  write (Some c) (Some r) st
  = push (c ++ (if (r =? 0)%Z then "" else Js.number_to_string r) ++ CR)%string st.
Proof.
  intros Hc Hlen. rewrite (write_enqueues_any (Some c) r st Hc Hlen).
  destruct (r =? 0); simpl; [reflexivity | now rewrite append_assoc].
Qed.

Lemma write_undefined_replies (message : option string) (st : St Payload) :
  write message None st = write message (Some 0) st.
Proof. reflexivity. Qed.

Lemma write_full (message : option string) (replies : option Z) (st : St Payload) :
  connected (this st) = true ->
  (256 <= List.length (queue (proc st)))%nat ->
  write message replies st = emit (Error "Queue-overflow!") st.
Proof.
  intros Hc Hlen. unfold write. rewrite Hc.
  apply Nat.ltb_ge in Hlen. now rewrite Hlen.
Qed.

Lemma write_not_connected (message : option string) (replies : option Z)
    (st : St Payload) :
  connected (this st) = false ->
  write message replies st = emit (Error "Bluetooth device is not connected.") st.
Proof. intros Hc. unfold write. now rewrite Hc. Qed.

Lemma write_this (message : option string) (replies : option Z) (st : St Payload) :
  this (write message replies st) = this st.
Proof.
  unfold write. destruct (connected (this st)); [|reflexivity].
  destruct (_ <? 256)%nat; [|reflexivity].
  destruct (negb _); reflexivity.
Qed.

(** [write] never lets the queue grow beyond 256 commands. *)
Lemma write_bounded (message : option string) (replies : option Z) (st : St Payload) :
  (List.length (queue (proc st)) <= 256)%nat ->
  (List.length (queue (proc (write message replies st))) <= 256)%nat.
Proof.
  intros Hle. unfold write. destruct (connected (this st)); [|exact Hle].
  destruct (Nat.ltb_spec (List.length (queue (proc st))) 256) as [Hlt|_]; [|exact Hle].
  destruct (negb _); simpl; rewrite length_app; simpl; lia.
Qed.

Lemma writePollers_from_bounded (pollers : list (option string)) :
  forall st : St Payload,
  (List.length (queue (proc st)) <= 256)%nat ->
  (List.length (queue (proc (writePollers_from pollers st))) <= 256)%nat.
Proof.
  induction pollers as [|p pollers IH]; intros st Hle; simpl; [exact Hle|].
  apply IH, write_bounded, Hle.
Qed.

(** One tick of the drain timer on a connected reader with a command
    pending: the head of the queue leaves it and is handed to the port. *)
Lemma tick_shifts (outcome : WriteOutcome) (st : St Payload)
    (command : string) (rest : list string) :
  connected (this st) = true ->
  queue (proc st) = command :: rest ->
  queue (proc (intervalWriter_tick outcome st)) = rest
  /\ written (btSerial (this (intervalWriter_tick outcome st)))
     = written (btSerial (this st)) ++ [command]
  /\ connected (this (intervalWriter_tick outcome st)) = true.
Proof.
  intros Hc Hq. unfold intervalWriter_tick. rewrite Hq, Hc.
  destruct outcome as [[err|]|err]; simpl.
  - rewrite Hc. auto.
  - rewrite Hc. auto.
  - rewrite Hc. destruct (intervalWriter (this st)); simpl; auto.
Qed.

Lemma tick_idle (outcome : WriteOutcome) (st : St Payload) :
  queue (proc st) = [] \/ connected (this st) = false ->
  intervalWriter_tick outcome st = st.
Proof.
  unfold intervalWriter_tick. intros [Hq|Hc].
  - now rewrite Hq.
  - rewrite Hc. now destruct (queue (proc st)).
Qed.

(** First in, first out: [k] successful ticks hand the [k] oldest
    commands to the port, in the order of the queue. *)
Lemma drain_fifo (outcomes : list WriteOutcome) :
  forall st : St Payload,
  connected (this st) = true ->
  (List.length outcomes <= List.length (queue (proc st)))%nat ->
  queue (proc (drain outcomes st)) = skipn (List.length outcomes) (queue (proc st))
  /\ written (btSerial (this (drain outcomes st)))
     = written (btSerial (this st)) ++ firstn (List.length outcomes) (queue (proc st)).
Proof.
  induction outcomes as [|o outcomes IH]; intros st Hc Hlen; simpl.
  - now rewrite app_nil_r.
  - destruct (queue (proc st)) as [|command rest] eqn:Hq; [simpl in Hlen; lia|].
    destruct (tick_shifts o st command rest Hc Hq) as (Hq' & Hw' & Hc').
    unfold drain in *. simpl.
    destruct (IH (intervalWriter_tick o st) Hc') as [IHq IHw].
    { rewrite Hq'. simpl in Hlen. lia. }
    rewrite IHq, IHw, Hq', Hw', <- app_assoc. auto.
Qed.

(** C2, as the code has it. Calling [write(c, r)] on a connected reader
    while the queue holds fewer than 256 commands appends exactly
    [c + (r if r != 0 else '') + '\r'] to the queue and changes nothing
    else; a call without [r] appends [c + '\r']. One following tick of the
    drain timer removes exactly one command, the one at the head of the
    queue, and hands it to the port: the queue is shorter by one. That
    command is the one just written when the queue was empty before the
    call; in general the queue is first in, first out, and the command
    just written is handed to the port by the tick that follows as many
    ticks as there were commands before it, after all of them and in
    their order, as long as no write into the port throws. *)
Theorem C2_write_then_drain :
  forall (c : string) (r : Z) (st : St Payload),
    connected (this st) = true ->
    (List.length (queue (proc st)) < 256)%nat ->
    let command :=
      (c ++ (if (r =? 0)%Z then "" else Js.number_to_string r) ++ CR)%string in
    let st1 := write (Some c) (Some r) st in
    (queue (proc st1) = queue (proc st) ++ [command]
     /\ timers (proc st1) = timers (proc st)
     /\ this st1 = this st /\ emitted st1 = emitted st)
    /\ queue (proc (write (Some c) None st)) = queue (proc st) ++ [(c ++ CR)%string]
    /\ (forall outcome,
          let st2 := intervalWriter_tick outcome st1 in
          S (List.length (queue (proc st2))) = List.length (queue (proc st1))
          /\ queue (proc st1) = hd command (queue (proc st)) :: queue (proc st2)
          /\ written (btSerial (this st2))
             = written (btSerial (this st)) ++ [hd command (queue (proc st))])
    /\ (queue (proc st) = [] ->
        forall outcome,
          let st2 := intervalWriter_tick outcome st1 in
          queue (proc st2) = []
          /\ written (btSerial (this st2)) = written (btSerial (this st)) ++ [command])
    /\ (forall outcomes,
          forallb accepted outcomes = true ->
          List.length outcomes = S (List.length (queue (proc st))) ->
          let st2 := drain outcomes st1 in
          queue (proc st2) = []
          /\ written (btSerial (this st2))
             = written (btSerial (this st)) ++ queue (proc st) ++ [command]).
Proof.
  intros c r st Hc Hlen command st1.
  assert (E1 : st1 = push command st) by (apply (write_enqueues c r st Hc Hlen)).
  assert (Hq1 : queue (proc st1) = queue (proc st) ++ [command]) by (now rewrite E1).
  assert (Ht1 : this st1 = this st) by apply write_this.
  assert (Hc1 : connected (this st1) = true) by (now rewrite Ht1).
  split; [|split; [|split; [|split]]].
  - rewrite E1. simpl. auto.
  - rewrite write_undefined_replies, (write_enqueues c 0 st Hc Hlen). reflexivity.
  - intros outcome st2.
    destruct (queue (proc st)) as [|old rest] eqn:Hq; simpl in Hq1 |- *.
    + destruct (tick_shifts outcome st1 command [] Hc1 Hq1) as (Hq2 & Hw2 & _).
      subst st2. rewrite Hq2, Hw2, Hq1, Ht1. auto.
    + destruct (tick_shifts outcome st1 old (rest ++ [command]) Hc1 Hq1) as (Hq2 & Hw2 & _).
      subst st2. rewrite Hq2, Hw2, Hq1, Ht1. auto.
  - intros Hq outcome st2. rewrite Hq in Hq1. simpl in Hq1.
    destruct (tick_shifts outcome st1 command [] Hc1 Hq1) as (Hq2 & Hw2 & _).
    subst st2. rewrite Hq2, Hw2, Ht1. auto.
  - intros outcomes _ Hn st2.
    destruct (drain_fifo outcomes st1 Hc1) as [Hq2 Hw2].
    { rewrite Hq1, length_app. simpl. lia. }
    subst st2. rewrite Hq2, Hw2, Hq1, Ht1, Hn.
    assert (Hall : S (List.length (queue (proc st)))
                   = List.length (queue (proc st) ++ [command]))
      by (rewrite length_app; simpl; lia).
    rewrite Hall, skipn_all, firstn_all. auto.
Qed.

End Queue.

Lemma C2_write_then_drain_witness :
  let st : St unit :=
    {| proc := initial_process; this := set_connected true new_OBDReader; emitted := [] |} in
  let st2 := intervalWriter_tick (Accepted None) (write (Some "010C") (Some 1) st) in
  queue (proc (write (Some "010C") (Some 1) st)) = [("010C1" ++ CR)%string]
  /\ queue (proc st2) = []
  /\ written (btSerial (this st2)) = [("010C1" ++ CR)%string].
Proof.
  intros st st2.
  assert (Hc : connected (this st) = true) by reflexivity.
  assert (Hlen : (List.length (queue (proc st)) < 256)%nat) by (simpl; lia).
  destruct (C2_write_then_drain "010C" 1 st Hc Hlen) as ((Hq & _) & _ & _ & Hempty & _).
  split; [exact Hq|]. exact (Hempty eq_refl (Accepted None)).
Defined.

(** With ["ATZ"] pending, the tick that follows [write("010C", 1)] hands
    ["ATZ\r"] to the port; the command just written stays in the queue. *)
Lemma C2_counterexample :
  let st : St unit :=
    {| proc := set_queue [("ATZ" ++ CR)%string] initial_process;
       this := set_connected true new_OBDReader; emitted := [] |} in
  let st2 := intervalWriter_tick (Accepted None) (write (Some "010C") (Some 1) st) in
  written (btSerial (this st2)) = [("ATZ" ++ CR)%string]
  /\ queue (proc st2) = [("010C1" ++ CR)%string]
  /\ ~ In ("010C1" ++ CR)%string (written (btSerial (this st2))).
Proof.
  split; [reflexivity|]. split; [reflexivity|].
  intros [H|[]]. discriminate.
Qed.

(** ** The bound of the queue, and the calls that keep it *)

Section QueueBound.

Context {Value : Type}.
Variable PIDS : list (PidEntry Value).

Lemma tick_queue_le {Payload : Type} (outcome : WriteOutcome) (st : St Payload) :
  (List.length (queue (proc (intervalWriter_tick outcome st)))
   <= List.length (queue (proc st)))%nat.
Proof.
  destruct (queue (proc st)) as [|command rest] eqn:Hq.
  - rewrite tick_idle by now left. rewrite Hq. simpl. lia.
  - destruct (connected (this st)) eqn:Hc.
    + destruct (tick_shifts outcome st command rest Hc Hq) as (-> & _). simpl. lia.
    + rewrite tick_idle by now right. rewrite Hq. lia.
Qed.

Lemma on_data_proc {Payload : Type} (parse : string -> Payload) (data : string)
    (st : St Payload) :
  proc (on_data parse data st) = proc st.
Proof. rewrite on_data_spec. now destruct (_ <? 2)%nat. Qed.

Lemma run_bounded (c : Call) (st : St (Reply Value)) :
  (List.length (queue (proc st)) <= 256)%nat ->
  (List.length (queue (proc (run PIDS c st))) <= 256)%nat.
Proof.
  intros Hle. destruct c; cbn [run].
  - unfold setProtocol, with_this. destruct p as [|a [|b p]]; try exact Hle.
    destruct (is_digit a); exact Hle.
  - now apply write_bounded.
  - now apply write_bounded.
  - exact Hle.
  - exact Hle.
  - exact Hle.
  - now apply writePollers_from_bounded.
  - unfold startPolling. simpl. exact Hle.
  - unfold stopPolling. destruct (pollerInterval (this st)); exact Hle.
  - exact Hle.
  - unfold disconnect. simpl. lia.
  - unfold on_connect. do 7 apply write_bounded. exact Hle.
  - unfold data_listener. now rewrite on_data_proc.
  - pose proof (tick_queue_le outcome st). lia.
  - now apply writePollers_from_bounded.
Qed.

Lemma run_all_bounded (calls : list Call) :
  forall st : St (Reply Value),
  (List.length (queue (proc st)) <= 256)%nat ->
  (List.length (queue (proc (run_all PIDS calls st))) <= 256)%nat.
Proof.
  induction calls as [|c calls IH]; intros st Hle; [exact Hle|].
  unfold run_all in *. simpl. apply IH, run_bounded, Hle.
Qed.

(** C3, as the code has it. On a connected reader, [write] with 256
    commands in the queue emits the error ['Queue-overflow!'] and does
    nothing else: the command is dropped and the queue is the same, of
    length 256. On a reader that is not connected the same call drops the
    command too, with the error of the missing connection. The queue
    never exceeds 256 commands: no call of the application, of the
    transport or of a timer takes a queue of at most 256 commands beyond
    256, so none does from the empty queue of a new process. *)
Theorem C3_queue_overflow :
  (forall (message : option string) (replies : option Z) (st : St (Reply Value)),
     connected (this st) = true ->
     List.length (queue (proc st)) = 256%nat ->
     write message replies st = emit (Error "Queue-overflow!") st
     /\ queue (proc (write message replies st)) = queue (proc st)
     /\ List.length (queue (proc (write message replies st))) = 256%nat)
  /\ (forall (message : option string) (replies : option Z) (st : St (Reply Value)),
        connected (this st) = false ->
        write message replies st = emit (Error "Bluetooth device is not connected.") st
        /\ queue (proc (write message replies st)) = queue (proc st))
  /\ (forall (calls : list Call) (st : St (Reply Value)),
        (List.length (queue (proc st)) <= 256)%nat ->
        (List.length (queue (proc (run_all PIDS calls st))) <= 256)%nat)
  /\ (forall (calls : list Call) (r : OBDReader),
        (List.length (queue (proc (run_all PIDS calls
           {| proc := initial_process; this := r; emitted := [] |}))) <= 256)%nat).
Proof.
  split; [|split; [|split]].
  - intros message replies st Hc Hlen.
    rewrite (write_full message replies st Hc) by lia. simpl. auto.
  - intros message replies st Hc.
    rewrite (write_not_connected message replies st Hc). simpl. auto.
  - intros calls st. apply run_all_bounded.
  - intros calls r. apply run_all_bounded. simpl. lia.
Qed.

End QueueBound.

Lemma C3_queue_overflow_witness :
  write (Some "010C") (Some 1) full_state = emit (Error "Queue-overflow!") full_state
  /\ List.length (queue (proc (write (Some "010C") (Some 1) full_state))) = 256%nat
  /\ queue (proc (write (Some "010C") None
                    (with_this (set_connected false) full_state)))
     = queue (proc full_state)
  /\ (List.length (queue (proc (run_all sample_PIDS
        [FireOnConnect; CallAddPoller "rpm"; FirePollerTick] full_state))) <= 256)%nat.
Proof.
  destruct (C3_queue_overflow sample_PIDS) as (Hfull & Hoff & Hbound & _).
  destruct (Hfull (Some "010C") (Some 1) full_state eq_refl eq_refl) as (Hw & _ & Hlen).
  destruct (Hoff (Some "010C") None (with_this (set_connected false) full_state) eq_refl)
    as (_ & Hq).
  split; [exact Hw|]. split; [exact Hlen|]. split; [exact Hq|].
  apply Hbound. apply Nat.leb_le. vm_compute. reflexivity.
Defined.

(** Two instances in one process. The first is connected and has filled
    the queue with 256 commands; the second is not connected. A [write]
    on the second finds 256 commands in the queue and reports the missing
    connection, not an overflow. *)
Lemma C3_counterexample :
  let w := calls_on sample_PIDS 0
             (FireOnConnect :: repeat (CallWrite (Some "010C") (Some 1)) 249)
             two_readers in
  let w' := call_on sample_PIDS 1 (CallWrite (Some "010C") (Some 1)) w in
  List.length (queue (shared w)) = 256%nat
  /\ nth_error (instances w') 1
     = Some (new_OBDReader, [Error "Bluetooth device is not connected."])
  /\ ~ In (Error "Queue-overflow!")
         (match nth_error (instances w') 1 with
          | Some (_, log) => log
          | None => []
          end).
Proof.
  split; [vm_compute; reflexivity|].
  split; [vm_compute; reflexivity|].
  vm_compute. intros [H|[]]. discriminate.
Qed.

(** ** The poller *)

Section Poller.

Context {Payload : Type}.

Lemma writePollers_from_enqueues (pollers : list (option string)) :
  forall st : St Payload,
  connected (this st) = true ->
  (List.length (queue (proc st)) + List.length pollers <= 256)%nat ->
  writePollers_from pollers st
  = with_proc (fun p =>
      set_queue (queue p ++ map (fun e => (Js.plus_number e 1 ++ CR)%string) pollers) p)
      st.
Proof.
  induction pollers as [|e pollers IH]; intros st Hc Hlen; simpl.
  - destruct st as [[q t n] r evs]. unfold with_proc, set_queue. simpl.
    now rewrite app_nil_r.
  - simpl in Hlen. rewrite (write_enqueues_any e 1 st Hc) by lia.
    rewrite IH.
    + unfold push, with_proc, set_queue. simpl. now rewrite <- app_assoc.
    + exact Hc.
    + unfold push. simpl. rewrite length_app. simpl. lia.
Qed.

Lemma writePollers_from_fold (pollers : list (option string)) :
  forall st : St Payload,
  writePollers_from pollers st = fold_left (fun st e => write e (Some 1) st) pollers st.
Proof.
  induction pollers as [|e pollers IH]; intros st; simpl; [reflexivity | apply IH].
Qed.

(** C9, as the code has it. [startPolling] without an interval starts a
    timer whose delay is the number of active pollers times twice the
    write delay of 50 ms, so 300 ms for three pollers. A tick of that
    timer calls [write(entry, 1)] once for every entry of the set, in the
    order of the set. On a connected reader, and when the queue has room
    for all of them, a tick appends exactly one command per entry, the
    entry followed by the reply count [1] and a carriage return, in the
    order of the set, and emits nothing. With an empty set a tick changes
    nothing. (An entry that is [undefined] is written as ["NaN"].) *)
Theorem C9_polling :
  (forall st : St Payload,
     let st' := startPolling None st in
     timers (proc st')
     = timers (proc st)
       ++ [(next_handle (proc st),
            {| callback := PollerTick;
               delay := Z.of_nat (List.length (activePollers (this st))) * (2 * 50) |})]
     /\ pollerInterval (this st') = Some (next_handle (proc st))
     /\ queue (proc st') = queue (proc st))
  /\ (forall (st : St Payload) (a b c : option string),
        activePollers (this st) = [a; b; c] ->
        timers (proc (startPolling None st))
        = timers (proc st)
          ++ [(next_handle (proc st), {| callback := PollerTick; delay := 300 |})])
  /\ (forall st : St Payload,
        writePollers st
        = fold_left (fun st e => write e (Some 1) st) (activePollers (this st)) st)
  /\ (forall st : St Payload,
        connected (this st) = true ->
        (List.length (queue (proc st)) + List.length (activePollers (this st)) <= 256)%nat ->
        (queue (proc (writePollers st))
         = queue (proc st)
           ++ map (fun e => (Js.plus_number e 1 ++ CR)%string) (activePollers (this st))
         /\ emitted (writePollers st) = emitted st
         /\ this (writePollers st) = this st)
        /\ (forall commands : list string,
              activePollers (this st) = map Some commands ->
              queue (proc (writePollers st))
              = queue (proc st) ++ map (fun c => (c ++ "1" ++ CR)%string) commands))
  /\ (forall st : St Payload, activePollers (this st) = [] -> writePollers st = st).
Proof.
  split; [|split; [|split; [|split]]].
  - intros st st'. subst st'. unfold startPolling, writeDelay. simpl.
    replace (50 * 2) with (2 * 50) by reflexivity. auto.
  - intros st a b c Hset. unfold startPolling, writeDelay. simpl. now rewrite Hset.
  - intros st. apply writePollers_from_fold.
  - intros st Hc Hlen. unfold writePollers.
    rewrite (writePollers_from_enqueues _ st Hc Hlen). simpl.
    split; [auto|]. intros commands ->. f_equal. rewrite map_map.
    apply map_ext. intros c. unfold Js.plus_number. now rewrite append_assoc.
  - intros st Hset. unfold writePollers. now rewrite Hset.
Qed.

End Poller.

Lemma C9_polling_witness :
  let st : St unit :=
    {| proc := initial_process;
       this := set_activePollers [Some "010C"; Some "010D"; Some "0105"]
                 (set_connected true new_OBDReader);
       emitted := [] |} in
  timers (proc (startPolling None st)) = [(0%nat, {| callback := PollerTick; delay := 300 |})]
  /\ queue (proc (writePollers st))
     = [("010C1" ++ CR)%string; ("010D1" ++ CR)%string; ("01051" ++ CR)%string]
  /\ writePollers (with_this (set_activePollers []) st) = with_this (set_activePollers []) st.
Proof.
  intros st.
  destruct (@C9_polling unit) as (_ & Hthree & _ & Htick & Hempty).
  split; [exact (Hthree st _ _ _ eq_refl)|].
  split.
  - assert (Hlen : (List.length (queue (proc st))
                    + List.length (activePollers (this st)) <= 256)%nat)
      by (simpl; lia).
    exact (proj1 (proj1 (Htick st eq_refl Hlen))).
  - exact (Hempty (with_this (set_activePollers []) st) eq_refl).
Defined.

(** A reader that is not connected, with one active poller: a tick of the
    poller leaves the queue empty and reports an error. *)
Lemma C9_counterexample :
  let st := run_all sample_PIDS
              [CallAddPoller "rpm"; CallStartPolling None; FirePollerTick] fresh_state in
  activePollers (this st) = [Some "010C"]
  /\ queue (proc st) = []
  /\ emitted st = [Error "Bluetooth device is not connected."].
Proof. repeat split; reflexivity. Qed.

(** ** Failure of the transport during a drain *)

Section DrainFailure.

Context {Payload : Type}.

Lemma live_cleared (h : option nat) (p : Process) : live h (clearInterval h p) = None.
Proof.
  destruct h as [n|]; [|reflexivity]. simpl.
  induction (timers p) as [|[m t] ts IH]; simpl; [reflexivity|].
  destruct (Nat.eqb_spec m n); simpl; [exact IH|].
  destruct (Nat.eqb_spec m n); [contradiction | exact IH].
Qed.

Lemma live_other (h k : option nat) (p : Process) :
  h <> k -> live h (clearInterval k p) = live h p.
Proof.
  intros Hne. destruct k as [n|]; [|reflexivity].
  destruct h as [m|]; [|reflexivity]. simpl.
  induction (timers p) as [|[i t] ts IH]; simpl; [reflexivity|].
  destruct (Nat.eqb_spec i n); simpl.
  - destruct (Nat.eqb_spec i m); [subst; congruence | exact IH].
  - destruct (Nat.eqb_spec i m); [reflexivity | exact IH].
Qed.

(** C4, as the code has it. There is no count of failures: one exception
    thrown by the port during a drain, the first one, is treated as the
    loss of the connection. The two errors are emitted, the drain timer
    is cancelled and the set of active pollers is emptied, so that a tick
    of the poller writes nothing; the command that was being written has
    left the queue and is not put back. No other timer is cancelled. A
    tick whose write does not throw leaves the timers and the set of
    active pollers as they are. *)
Theorem C4_first_exception_tears_down :
  forall (st : St Payload) (command : string) (rest : list string) (err : string),
    connected (this st) = true ->
    queue (proc st) = command :: rest ->
    let st' := intervalWriter_tick (Thrown err) st in
    (live (intervalWriter (this st)) (proc st') = None
     /\ (forall h, h <> intervalWriter (this st) -> live h (proc st') = live h (proc st))
     /\ activePollers (this st') = []
     /\ emitted st'
        = emitted st
          ++ [Error ("Error while writing: " ++ err)%string;
              Error "OBD-II Listeners deactivated, connection is probably lost."]
     /\ queue (proc st') = rest
     /\ writePollers st' = st')
    /\ (forall err',
          let st'' := intervalWriter_tick (Accepted err') st in
          timers (proc st'') = timers (proc st)
          /\ activePollers (this st'') = activePollers (this st)
          /\ queue (proc st'') = rest).
Proof.
  intros st command rest err Hc Hq st'. subst st'.
  unfold intervalWriter_tick. rewrite Hq, Hc. split.
  - cbn [proc this emitted removeAllPollers with_this with_proc emit
         set_activePollers activePollers intervalWriter set_btSerial].
    split; [apply live_cleared|].
    split; [intros h Hne; now rewrite live_other|].
    split; [reflexivity|].
    split; [now rewrite <- app_assoc|].
    split; [now destruct (intervalWriter (this st))|].
    reflexivity.
  - intros [err'|]; simpl; auto.
Qed.

End DrainFailure.

Lemma C4_first_exception_tears_down_witness :
  let st := run_all sample_PIDS
              [CallConnect; FireOnConnect; CallAddPoller "rpm"; CallStartPolling None]
              fresh_state in
  let st' := intervalWriter_tick (Thrown "EIO") st in
  live (intervalWriter (this st)) (proc st') = None
  /\ activePollers (this st') = []
  /\ writePollers st' = st'.
Proof.
  intros st st'.
  destruct (C4_first_exception_tears_down st ("ATZ" ++ CR)%string
              (tl (queue (proc st))) "EIO" eq_refl eq_refl)
    as ((Hlive & _ & Hset & _ & _ & Htick) & _).
  split; [exact Hlive|]. split; [exact Hset | exact Htick].
Defined.

(** A connected reader with its drain timer, one active poller and its
    poller timer. The first write that throws cancels the drain timer and
    empties the set of pollers; the poller timer stays live. *)
Lemma C4_counterexample :
  let st := run_all sample_PIDS
              [CallConnect; FireOnConnect; CallAddPoller "rpm"; CallStartPolling None]
              fresh_state in
  let st' := run sample_PIDS (FireIntervalWriter (Thrown "EIO")) st in
  live (intervalWriter (this st)) (proc st)
  = Some {| callback := IntervalWriter; delay := 50 |}
  /\ activePollers (this st) = [Some "010C"]
  /\ live (intervalWriter (this st')) (proc st') = None
  /\ activePollers (this st') = []
  /\ live (pollerInterval (this st')) (proc st')
     = Some {| callback := PollerTick; delay := 100 |}.
Proof. repeat split; reflexivity. Qed.

(** ** Names of pollers *)

Section PollerNames.

Context {Value Payload : Type}.
Variable PIDS : list (PidEntry Value).

Lemma getPIDByName_spec (wanted : string) :
  getPIDByName PIDS wanted = option_map command_of (first_with_name PIDS wanted).
Proof.
  unfold getPIDByName, first_with_name.
  induction PIDS as [|e table IH]; simpl; [reflexivity|].
  destruct (String.eqb (name e) wanted); [|exact IH].
  simpl. unfold command_of. now destruct (pid e).
Qed.

Lemma first_with_name_exists (wanted : string) (e0 : PidEntry Value) :
  In e0 PIDS -> name e0 = wanted ->
  exists e, first_with_name PIDS wanted = Some e /\ In e PIDS /\ name e = wanted.
Proof.
  intros Hin Hname. unfold first_with_name.
  destruct (find (fun e => String.eqb (name e) wanted) PIDS) as [e|] eqn:E.
  - exists e. apply find_some in E as [He Heq]. apply String.eqb_eq in Heq. auto.
  - exfalso. pose proof (find_none _ _ E e0 Hin) as H. simpl in H.
    rewrite Hname, String.eqb_refl in H. discriminate.
Qed.

(** C8, as the code has it. Neither [addPoller] nor [removePoller] has an
    error for an unknown name: for every name, both return without
    emitting an event, and touch nothing but the set of active pollers.
    For a name that is in the PID table, [addPoller] appends to the set
    the command text of the first entry of that name: its mode followed
    by its pid, or its mode alone when it has no pid. *)
Theorem C8_pollers_by_name :
  (forall (wanted : string) (st : St Payload),
     emitted (addPoller PIDS wanted st) = emitted st
     /\ proc (addPoller PIDS wanted st) = proc st
     /\ set_activePollers [] (this (addPoller PIDS wanted st))
        = set_activePollers [] (this st)
     /\ emitted (removePoller PIDS wanted st) = emitted st
     /\ proc (removePoller PIDS wanted st) = proc st
     /\ set_activePollers [] (this (removePoller PIDS wanted st))
        = set_activePollers [] (this st))
  /\ (forall (wanted : string) (e0 : PidEntry Value) (st : St Payload),
        In e0 PIDS -> name e0 = wanted ->
        exists e,
          first_with_name PIDS wanted = Some e /\ In e PIDS /\ name e = wanted
          /\ activePollers (this (addPoller PIDS wanted st))
             = activePollers (this st) ++ [Some (command_of e)]).
Proof.
  split.
  - intros wanted st. repeat split; reflexivity.
  - intros wanted e0 st Hin Hname.
    destruct (first_with_name_exists wanted e0 Hin Hname) as (e & He & Hin' & Hname').
    exists e. repeat split; try assumption.
    unfold addPoller. simpl. now rewrite getPIDByName_spec, He.
Qed.

End PollerNames.

Lemma C8_pollers_by_name_witness :
  activePollers (this (addPoller sample_PIDS "rpm" (@fresh_state unit))) = [Some "010C"]
  /\ activePollers (this (addPoller sample_PIDS "requestdtc" (@fresh_state unit)))
     = [Some "03"].
Proof.
  split.
  - destruct (proj2 (C8_pollers_by_name (Payload := unit) sample_PIDS) "rpm"
                {| mode := "01"; pid := Some "0C"; bytes := 2; name := "rpm";
                   convertToUseful := fun tokens => tokens |}
                fresh_state (or_introl eq_refl) eq_refl)
      as (e & He & _ & _ & Hset).
    injection He as <-. exact Hset.
  - destruct (proj2 (C8_pollers_by_name (Payload := unit) sample_PIDS) "requestdtc"
                {| mode := "03"; pid := None; bytes := 6; name := "requestdtc";
                   convertToUseful := fun tokens => tokens |}
                fresh_state (or_intror (or_intror (or_intror (or_introl eq_refl)))) eq_refl)
      as (e & He & _ & _ & Hset).
    injection He as <-. exact Hset.
Defined.

(** No entry of the table is named ["nosuch"]. [addPoller("nosuch")]
    adds an [undefined] entry to the set, and [removePoller("nosuch")]
    removes the last poller; neither reports an error. *)
Lemma C8_counterexample :
  let st := run_all sample_PIDS [CallAddPoller "rpm"; CallAddPoller "vss"] fresh_state in
  getPIDByName sample_PIDS "nosuch" = None
  /\ activePollers (this st) = [Some "010C"; Some "010D"]
  /\ activePollers (this (addPoller sample_PIDS "nosuch" st))
     = [Some "010C"; Some "010D"; None]
  /\ emitted (addPoller sample_PIDS "nosuch" st) = []
  /\ activePollers (this (removePoller sample_PIDS "nosuch" st)) = [Some "010C"]
  /\ emitted (removePoller sample_PIDS "nosuch" st) = [].
Proof. repeat split; reflexivity. Qed.

(** ** One queue for every instance *)

Section SharedQueue.

Context {Value : Type}.
Variable PIDS : list (PidEntry Value).

Lemma nth_error_replace_nth_other {A : Type} (l : list A) :
  forall (i j : nat) (x : A), i <> j -> nth_error (replace_nth i x l) j = nth_error l j.
Proof.
  induction l as [|y l IH]; intros i j x Hne; [now destruct i|].
  destruct i as [|i], j as [|j]; simpl; try reflexivity; try congruence.
  apply IH. congruence.
Qed.

Lemma call_on_shared (i : nat) (c : Call) (w : World) (r : OBDReader)
    (log : list (Event (Reply Value))) :
  nth_error (instances w) i = Some (r, log) ->
  shared (call_on PIDS i c w)
  = proc (run PIDS c {| proc := shared w; this := r; emitted := log |}).
Proof. intros H. unfold call_on. now rewrite H. Qed.

Lemma call_on_others (i j : nat) (c : Call) (w : World) :
  i <> j -> nth_error (instances (call_on PIDS i c w)) j = nth_error (instances w) j.
Proof.
  intros Hne. unfold call_on.
  destruct (nth_error (instances w) i) as [[r log]|]; [|reflexivity].
  simpl. now apply nth_error_replace_nth_other.
Qed.

(** C10, as the code has it. The command queue is one array of the
    module, shared by every instance of the process. [write] on any
    connected instance appends to that one queue, after the commands of
    the other instances. [disconnect] on any instance empties the whole
    queue, whoever enqueued the commands. A call on one instance leaves
    the fields of every other instance as they are. The state of an
    instance is made of [connected], [receivedData], [protocol],
    [activePollers], the two timer handles, and the port [btSerial]: two
    instances that agree on these are the same. *)
Theorem C10_shared_queue :
  (forall (w : World) (i : nat) (r : OBDReader) (log : list (Event (Reply Value)))
          (c : string) (n : Z),
     nth_error (instances w) i = Some (r, log) ->
     connected r = true ->
     (List.length (queue (shared w)) < 256)%nat ->
     queue (shared (call_on PIDS i (CallWrite (Some c) (Some n)) w))
     = queue (shared w)
       ++ [(c ++ (if (n =? 0)%Z then "" else Js.number_to_string n) ++ CR)%string])
  /\ (forall (w : World) (i : nat) (cb : bool),
        (i < List.length (instances w))%nat ->
        queue (shared (call_on PIDS i (CallDisconnect cb) w)) = [])
  /\ (forall (w : World) (i j : nat) (c : Call),
        i <> j ->
        nth_error (instances (call_on PIDS i c w)) j = nth_error (instances w) j)
  /\ (forall r1 r2 : OBDReader,
        fields_but_port r1 = fields_but_port r2 ->
        btSerial r1 = btSerial r2 ->
        r1 = r2).
Proof.
  split; [|split; [|split]].
  - intros w i r log c n Hi Hc Hlen.
    rewrite (call_on_shared i _ w r log Hi). simpl.
    now rewrite write_enqueues.
  - intros w i cb Hi.
    destruct (nth_error (instances w) i) as [[r log]|] eqn:E.
    + now rewrite (call_on_shared i _ w r log E).
    + apply nth_error_None in E. lia.
  - intros w i j c. apply call_on_others.
  - intros [c1 d1 p1 b1 a1 i1 q1] [c2 d2 p2 b2 a2 i2 q2]. unfold fields_but_port. simpl.
    intros H Hb. injection H as -> -> -> -> -> ->. now subst.
Qed.

End SharedQueue.

Lemma C10_shared_queue_witness :
  let w0 := call_on sample_PIDS 1 FireOnConnect
              (call_on sample_PIDS 0 FireOnConnect two_readers) in
  let w1 := call_on sample_PIDS 1 (CallWrite (Some "010C") (Some 1)) w0 in
  queue (shared w1) = queue (shared w0) ++ [("010C1" ++ CR)%string]
  /\ List.length (queue (shared w1)) = 15%nat
  /\ queue (shared (call_on sample_PIDS 0 (CallDisconnect false) w1)) = []
  /\ nth_error (instances (call_on sample_PIDS 0 (CallDisconnect false) w1)) 1
     = nth_error (instances w1) 1.
Proof.
  intros w0 w1.
  destruct (C10_shared_queue sample_PIDS) as (Hwrite & Hdisc & Hothers & _).
  split.
  - assert (Hlen : (List.length (queue (shared w0)) < 256)%nat)
      by (apply Nat.ltb_lt; vm_compute; reflexivity).
    exact (Hwrite w0 1%nat (set_connected true new_OBDReader) [Connected]
             "010C" 1 eq_refl eq_refl Hlen).
  - split; [reflexivity|]. split.
    + apply Hdisc. simpl. lia.
    + apply Hothers. discriminate.
Defined.

(** Two readers that agree on [connected], [receivedData], [protocol],
    [activePollers] and both timer handles, and differ: the port of the
    second has been handed a command, that of the first none. *)
Lemma C10_counterexample :
  let ra := this (run_all sample_PIDS [CallConnect; FireOnConnect] fresh_state) in
  let rb := this (run_all sample_PIDS
                    [CallConnect; FireOnConnect; FireIntervalWriter (Accepted None)]
                    fresh_state) in
  fields_but_port ra = fields_but_port rb
  /\ written (btSerial ra) = []
  /\ written (btSerial rb) = [("ATZ" ++ CR)%string]
  /\ ra <> rb.
Proof.
  split; [reflexivity|]. split; [reflexivity|]. split; [reflexivity|].
  intros H. apply (f_equal (fun r => written (btSerial r))) in H. discriminate.
Qed.

(** * Further properties of the reader *)

(** ** The protocol and the commands of a new connection *)

Lemma is_digit_decimal (c : ascii) :
  is_digit c = true <-> In (String c EmptyString) decimal_digits.
Proof.
  split.
  - destruct c as [[] [] [] [] [] [] [] []]; intros H; vm_compute in H;
      try discriminate H; simpl; tauto.
  - unfold decimal_digits. simpl.
    intros [H|[H|[H|[H|[H|[H|[H|[H|[H|[H|[]]]]]]]]]]];
      injection H as <-; reflexivity.
Qed.

Lemma last_of_app {A : Type} (l l' : list A) (d : A) :
  l' <> [] -> last (l ++ l') d = last l' d.
Proof.
  intros Hne. induction l as [|x l IH]; [reflexivity|].
  simpl. destruct (l ++ l') eqn:E; [|exact IH].
  apply app_eq_nil in E. tauto.
Qed.

Lemma write_process (message : option string) (replies : option Z)
    {Payload : Type} (st : St Payload) :
  timers (proc (write message replies st)) = timers (proc st)
  /\ next_handle (proc (write message replies st)) = next_handle (proc st).
Proof.
  unfold write. destruct (connected (this st)); [|auto].
  destruct (_ <? 256)%nat; [|auto].
  destruct (negb _); auto.
Qed.

Lemma writes_process (commands : list string) {Payload : Type} :
  forall st : St Payload,
  timers (proc (fold_left (fun st c => write (Some c) None st) commands st))
  = timers (proc st)
  /\ next_handle (proc (fold_left (fun st c => write (Some c) None st) commands st))
     = next_handle (proc st).
Proof.
  induction commands as [|c commands IH]; intros st; simpl; [auto|].
  destruct (IH (write (Some c) None st)) as [-> ->]. apply write_process.
Qed.

Section Protocol.

Context {Payload : Type}.

Lemma writes_enqueue (commands : list string) :
  forall st : St Payload,
  connected (this st) = true ->
  (List.length (queue (proc st)) + List.length commands <= 256)%nat ->
  fold_left (fun st c => write (Some c) None st) commands st
  = with_proc (fun p =>
      set_queue (queue p ++ map (fun c => (c ++ CR)%string) commands) p) st.
Proof.
  induction commands as [|c commands IH]; intros st Hc Hlen; simpl.
  - destruct st as [[q t n] r evs]. unfold with_proc, set_queue. simpl.
    now rewrite app_nil_r.
  - simpl in Hlen.
    rewrite write_undefined_replies, (write_enqueues c 0 st Hc) by lia.
    rewrite IH.
    + unfold push, with_proc, set_queue. simpl. now rewrite <- app_assoc.
    + exact Hc.
    + unfold push. simpl. rewrite length_app. simpl. lia.
Qed.

Lemma writes_overflow (commands : list string) :
  forall st : St Payload,
  connected (this st) = true ->
  List.length (queue (proc st)) = 256%nat ->
  fold_left (fun st c => write (Some c) None st) commands st
  = {| proc := proc st; this := this st;
       emitted := emitted st
                  ++ repeat (Error "Queue-overflow!") (List.length commands) |}.
Proof.
  induction commands as [|c commands IH]; intros st Hc Hlen; simpl.
  - destruct st. simpl. now rewrite app_nil_r.
  - rewrite (write_full (Some c) None st Hc) by lia.
    rewrite IH by assumption. simpl. now rewrite <- app_assoc.
Qed.

Lemma on_connect_fold (st : St Payload) :
  on_connect st
  = emit Connected
      (fold_left (fun st c => write (Some c) None st)
         ["ATZ"; "ATL0"; "ATS0"; "ATH0"; "ATE0"; "ATAT2";
          ("ATSP" ++ protocol (this st))%string]
         (with_this (set_connected true) st)).
Proof. unfold on_connect. simpl. rewrite !write_this. reflexivity. Qed.

(** X1. [setProtocol] accepts exactly the ten texts of one decimal digit.
    For one of them the call stores the text, so that [getProtocol]
    returns it, and changes nothing else; for any other text it throws
    and nothing is stored. The protocol stored is the one that the next
    connection selects: the last command that the success callback
    enqueues is ["ATSP"] followed by that text. *)
Theorem X1_setProtocol_getProtocol :
  forall (p : string) (st : St Payload),
    (In p decimal_digits ->
     exists st',
       setProtocol p st = Some st'
       /\ getProtocol st' = p
       /\ this st' = set_protocol p (this st)
       /\ proc st' = proc st /\ emitted st' = emitted st
       /\ ((List.length (queue (proc st)) + 7 <= 256)%nat ->
           last (queue (proc (on_connect st'))) "" = ("ATSP" ++ p ++ CR)%string))
    /\ (~ In p decimal_digits -> setProtocol p st = None).
Proof.
  intros p st. split.
  - intros Hin.
    assert (Hd : exists c, p = String c EmptyString /\ is_digit c = true).
    { unfold decimal_digits in Hin. simpl in Hin.
      destruct Hin as [H|[H|[H|[H|[H|[H|[H|[H|[H|[H|[]]]]]]]]]]]; subst p;
        eexists; split; reflexivity. }
    destruct Hd as (c & -> & Hc).
    exists (with_this (set_protocol (String c EmptyString)) st).
    unfold setProtocol. rewrite Hc.
    repeat split.
    intros Hlen. rewrite on_connect_fold, writes_enqueue; [|reflexivity|simpl; lia].
    simpl. rewrite last_of_app by discriminate. reflexivity.
  - intros Hnot. unfold setProtocol.
    destruct p as [|c [|d p]]; try reflexivity.
    destruct (is_digit c) eqn:E; [|reflexivity].
    exfalso. apply Hnot. now apply is_digit_decimal.
Qed.

(** X2. The success callback of the connection marks the reader as
    connected and emits ['connected'] last, whatever the queue holds.
    When the queue has room for seven commands, it appends to it ["ATZ"],
    ["ATL0"], ["ATS0"], ["ATH0"], ["ATE0"], ["ATAT2"] and ["ATSP"] with
    the protocol, each with a carriage return and in this order, and
    emits nothing else; from an empty queue, seven ticks of the drain
    timer whose writes do not throw hand exactly these to the port, in
    this order. When the queue is full, the seven commands are dropped
    with seven overflow errors, and ['connected'] is emitted all the
    same. *)
Theorem X2_on_connect_init_sequence :
  forall st : St Payload,
    (connected (this (on_connect st)) = true
     /\ this (on_connect st) = set_connected true (this st)
     /\ timers (proc (on_connect st)) = timers (proc st)
     /\ exists before, emitted (on_connect st) = before ++ [Connected])
    /\ ((List.length (queue (proc st)) + 7 <= 256)%nat ->
        queue (proc (on_connect st))
        = queue (proc st) ++ init_commands (protocol (this st))
        /\ emitted (on_connect st) = emitted st ++ [Connected])
    /\ (queue (proc st) = [] ->
        forall outcomes,
          List.length outcomes = 7%nat ->
          queue (proc (drain outcomes (on_connect st))) = []
          /\ written (btSerial (this (drain outcomes (on_connect st))))
             = written (btSerial (this st)) ++ init_commands (protocol (this st)))
    /\ (List.length (queue (proc st)) = 256%nat ->
        queue (proc (on_connect st)) = queue (proc st)
        /\ emitted (on_connect st)
           = emitted st ++ repeat (Error "Queue-overflow!") 7 ++ [Connected]).
Proof.
  intros st.
  assert (Hthis : this (on_connect st) = set_connected true (this st)).
  { unfold on_connect. simpl. now rewrite !write_this. }
  assert (Hroom : (List.length (queue (proc st)) + 7 <= 256)%nat ->
            on_connect st
            = emit Connected
                (with_proc (fun p =>
                   set_queue (queue p ++ init_commands (protocol (this st))) p)
                   (with_this (set_connected true) st))).
  { intros Hlen. rewrite on_connect_fold, writes_enqueue; [reflexivity|reflexivity|].
    simpl. lia. }
  split; [|split; [|split]].
  - split; [now rewrite Hthis|]. split; [exact Hthis|]. split.
    + rewrite on_connect_fold. unfold emit. cbn [proc].
      rewrite (proj1 (writes_process _ _)). reflexivity.
    + rewrite on_connect_fold. unfold emit. cbn [emitted]. eexists. reflexivity.
  - intros Hlen. rewrite (Hroom Hlen). simpl. auto.
  - intros Hq outcomes Hn.
    assert (Hlen : (List.length (queue (proc st)) + 7 <= 256)%nat)
      by (rewrite Hq; simpl; lia).
    destruct (drain_fifo outcomes (on_connect st)) as [Hq' Hw'].
    + now rewrite Hthis.
    + rewrite (Hroom Hlen). simpl. rewrite Hq. simpl. lia.
    + rewrite Hq', Hw', Hn, (Hroom Hlen). simpl. rewrite Hq. simpl. auto.
  - intros Hfull. rewrite on_connect_fold, writes_overflow; [|reflexivity|exact Hfull].
    simpl. rewrite <- app_assoc. auto.
Qed.

End Protocol.

Lemma X1_setProtocol_getProtocol_witness :
  (exists st', setProtocol "3" (@fresh_state unit) = Some st' /\ getProtocol st' = "3")
  /\ setProtocol "A" (@fresh_state unit) = None
  /\ setProtocol "10" (@fresh_state unit) = None.
Proof.
  split; [|split].
  - destruct (proj1 (X1_setProtocol_getProtocol "3" (@fresh_state unit)))
      as (st' & Hset & Hget & _).
    + simpl. tauto.
    + exists st'. auto.
  - apply (proj2 (X1_setProtocol_getProtocol "A" (@fresh_state unit))).
    simpl. intuition discriminate.
  - apply (proj2 (X1_setProtocol_getProtocol "10" (@fresh_state unit))).
    simpl. intuition discriminate.
Defined.

Lemma X2_on_connect_init_sequence_witness :
  queue (proc (on_connect (@fresh_state unit)))
  = [("ATZ" ++ CR)%string; ("ATL0" ++ CR)%string; ("ATS0" ++ CR)%string;
     ("ATH0" ++ CR)%string; ("ATE0" ++ CR)%string; ("ATAT2" ++ CR)%string;
     ("ATSP0" ++ CR)%string]
  /\ emitted (on_connect (@fresh_state unit)) = [Connected].
Proof.
  destruct (X2_on_connect_init_sequence (@fresh_state unit)) as (_ & Hroom & _).
  apply Hroom. simpl. lia.
Defined.

(** ** Requests and pollers by name *)

Lemma indexOf_lower (v : option string) (arr : list (option string)) :
  -1 <= Js.indexOf v arr.
Proof.
  induction arr as [|x arr IH]; simpl; [lia|].
  destruct (Js.strict_eq x v); [lia|].
  destruct (Z.ltb_spec (Js.indexOf v arr) 0); lia.
Qed.

Lemma indexOf_absent (v : option string) (arr : list (option string)) :
  ~ In v arr -> Js.indexOf v arr = -1.
Proof.
  induction arr as [|x arr IH]; simpl; intros Hnot; [reflexivity|].
  destruct (Js.strict_eq x v) eqn:E.
  - apply strict_eq_true in E. tauto.
  - rewrite IH by tauto. reflexivity.
Qed.

Lemma indexOf_first (v : option string) (before after : list (option string)) :
  ~ In v before ->
  Js.indexOf v (before ++ v :: after) = Z.of_nat (List.length before).
Proof.
  induction before as [|x before IH]; simpl; intros Hnot.
  - now rewrite (proj2 (strict_eq_true v v) eq_refl).
  - destruct (Js.strict_eq x v) eqn:E.
    + apply strict_eq_true in E. tauto.
    + rewrite IH by tauto.
      destruct (Z.ltb_spec (Z.of_nat (List.length before)) 0); lia.
Qed.

Lemma splice1_at {A : Type} (before after : list A) (x : A) :
  Js.splice1 (Z.of_nat (List.length before)) (before ++ x :: after) = before ++ after.
Proof.
  unfold Js.splice1. rewrite length_app. simpl.
  destruct (Z.ltb_spec (Z.of_nat (List.length before)) 0); [lia|].
  rewrite Z.min_l by lia. rewrite Nat2Z.id.
  rewrite firstn_app, Nat.sub_diag, firstn_all. simpl. rewrite app_nil_r.
  f_equal. rewrite skipn_app, skipn_all2 by lia.
  replace (List.length before + 1 - List.length before)%nat with 1%nat by lia.
  reflexivity.
Qed.

Lemma splice1_last {A : Type} (arr : list A) : Js.splice1 (-1) arr = removelast arr.
Proof.
  destruct arr as [|a arr']; [reflexivity|].
  destruct (@exists_last _ (a :: arr')) as (front & x & ->); [discriminate|].
  rewrite removelast_last. unfold Js.splice1. rewrite length_app. simpl.
  replace (Z.max (Z.of_nat (List.length front + 1) + -1) 0)
    with (Z.of_nat (List.length front)) by lia.
  rewrite Nat2Z.id, firstn_app, Nat.sub_diag, firstn_all. simpl.
  rewrite app_nil_r, skipn_all2; [apply app_nil_r|].
  rewrite length_app. simpl. lia.
Qed.

Section ByName.

Context {Value Payload : Type}.
Variable PIDS : list (PidEntry Value).

(** X3. [requestValueByName] on a connected reader whose queue holds
    fewer than 256 commands appends one command: for a name of the PID
    table, the mode and the pid of the first entry of that name (the mode
    alone when the entry has no pid) and a carriage return; for a name
    that is not in the table, the text ["undefined"] and a carriage
    return. On a reader that is not connected it appends nothing and
    reports the missing connection. *)
Theorem X3_requestValueByName :
  forall (wanted : string) (st : St Payload),
    (connected (this st) = true ->
     (List.length (queue (proc st)) < 256)%nat ->
     (forall e, first_with_name PIDS wanted = Some e ->
        requestValueByName PIDS wanted st = push (command_of e ++ CR)%string st)
     /\ (first_with_name PIDS wanted = None ->
         requestValueByName PIDS wanted st = push ("undefined" ++ CR)%string st))
    /\ (connected (this st) = false ->
        requestValueByName PIDS wanted st
        = emit (Error "Bluetooth device is not connected.") st).
Proof.
  intros wanted st. unfold requestValueByName. rewrite getPIDByName_spec. split.
  - intros Hc Hlen. split.
    + intros e He. rewrite He. simpl.
      now rewrite write_undefined_replies, (write_enqueues _ 0 st Hc Hlen).
    + intros Hnone. rewrite Hnone. simpl.
      now rewrite write_undefined_replies, (write_enqueues_any None 0 st Hc Hlen).
  - intros Hc. now apply write_not_connected.
Qed.

(** X4. [removePoller] with a name of the PID table whose command is in
    the set of active pollers removes the first occurrence of that
    command and nothing else. So [addPoller] followed by [removePoller]
    with the same name gives back the reader as it was, if the command
    was not in the set before; if it was, the first occurrence of the
    command is removed and the command added stays at the end. *)
Theorem X4_removePoller_active :
  forall (wanted : string) (e : PidEntry Value) (st : St Payload),
    first_with_name PIDS wanted = Some e ->
    (forall before after,
       activePollers (this st) = before ++ Some (command_of e) :: after ->
       ~ In (Some (command_of e)) before ->
       this (removePoller PIDS wanted st)
       = set_activePollers (before ++ after) (this st))
    /\ (~ In (Some (command_of e)) (activePollers (this st)) ->
        removePoller PIDS wanted (addPoller PIDS wanted st) = st)
    /\ (forall before after,
          activePollers (this st) = before ++ Some (command_of e) :: after ->
          ~ In (Some (command_of e)) before ->
          activePollers (this (removePoller PIDS wanted (addPoller PIDS wanted st)))
          = before ++ after ++ [Some (command_of e)]).
Proof.
  intros wanted e st He.
  assert (Hcmd : getPIDByName PIDS wanted = Some (command_of e))
    by (now rewrite getPIDByName_spec, He).
  assert (Hrm : forall (st' : St Payload) before after,
            activePollers (this st') = before ++ Some (command_of e) :: after ->
            ~ In (Some (command_of e)) before ->
            this (removePoller PIDS wanted st')
            = set_activePollers (before ++ after) (this st')).
  { intros st' before after Hset Hnot. unfold removePoller. simpl.
    now rewrite Hcmd, Hset, indexOf_first, splice1_at. }
  split; [apply Hrm | split].
  - intros Hnot. unfold removePoller, addPoller. simpl. rewrite Hcmd.
    destruct st as [p [c d pr b a i q] evs]. unfold with_this. simpl in *.
    rewrite indexOf_first by exact Hnot.
    now rewrite splice1_at, app_nil_r.
  - intros before after Hset Hnot.
    rewrite (Hrm (addPoller PIDS wanted st) before (after ++ [Some (command_of e)])).
    + reflexivity.
    + unfold addPoller. simpl. rewrite Hcmd, Hset, <- app_assoc. reflexivity.
    + exact Hnot.
Qed.

(** X5. [removePoller] with a name whose command is not in the set of
    active pollers, be the name in the PID table or not, removes the last
    entry of the set: [indexOf] answers [-1], and [splice(-1, 1)] counts
    from the end. On an empty set nothing is removed. *)
Theorem X5_removePoller_inactive :
  forall (wanted : string) (st : St Payload),
    ~ In (getPIDByName PIDS wanted) (activePollers (this st)) ->
    this (removePoller PIDS wanted st)
    = set_activePollers (removelast (activePollers (this st))) (this st)
    /\ proc (removePoller PIDS wanted st) = proc st
    /\ emitted (removePoller PIDS wanted st) = emitted st.
Proof.
  intros wanted st Hnot. unfold removePoller. simpl.
  now rewrite indexOf_absent, splice1_last.
Qed.

End ByName.

Lemma X3_requestValueByName_witness :
  let st : St unit :=
    {| proc := initial_process; this := set_connected true new_OBDReader; emitted := [] |} in
  queue (proc (requestValueByName sample_PIDS "rpm" st)) = [("010C" ++ CR)%string]
  /\ queue (proc (requestValueByName sample_PIDS "nosuch" st)) = [("undefined" ++ CR)%string]
  /\ emitted (requestValueByName sample_PIDS "rpm" (@fresh_state unit))
     = [Error "Bluetooth device is not connected."].
Proof.
  intros st.
  assert (Hlen : (List.length (queue (proc st)) < 256)%nat) by (simpl; lia).
  destruct (X3_requestValueByName sample_PIDS "rpm" st) as [Hon _].
  destruct (Hon eq_refl Hlen) as [Hknown _].
  destruct (X3_requestValueByName sample_PIDS "nosuch" st) as [Hon' _].
  destruct (Hon' eq_refl Hlen) as [_ Hunknown].
  destruct (X3_requestValueByName sample_PIDS "rpm" (@fresh_state unit)) as [_ Hoff].
  split; [|split].
  - now rewrite (Hknown _ eq_refl).
  - now rewrite (Hunknown eq_refl).
  - now rewrite (Hoff eq_refl).
Defined.

Lemma X4_removePoller_active_witness :
  let st : St unit :=
    with_this (set_activePollers [Some "010D"; Some "010C"; Some "010C"]) fresh_state in
  activePollers (this (removePoller sample_PIDS "rpm" st)) = [Some "010D"; Some "010C"]
  /\ removePoller sample_PIDS "vss" (addPoller sample_PIDS "vss" (@fresh_state unit))
     = fresh_state.
Proof.
  intros st. split.
  - destruct (X4_removePoller_active sample_PIDS "rpm" _ st eq_refl) as [Hrm _].
    rewrite (Hrm [Some "010D"] [Some "010C"] eq_refl).
    + reflexivity.
    + simpl. intuition discriminate.
  - destruct (X4_removePoller_active sample_PIDS "vss" _ (@fresh_state unit) eq_refl)
      as (_ & Hround & _).
    apply Hround. simpl. tauto.
Defined.

Lemma X5_removePoller_inactive_witness :
  let st : St unit :=
    with_this (set_activePollers [Some "010C"; Some "010D"]) fresh_state in
  activePollers (this (removePoller sample_PIDS "ect" st)) = [Some "010C"].
Proof.
  intros st.
  destruct (X5_removePoller_inactive sample_PIDS "ect" st) as [Hthis _].
  - simpl. intuition discriminate.
  - now rewrite Hthis.
Defined.

(** ** Timers *)

Lemma live_new (p : Process) (cb : Callback) (ms : Z) :
  handles_fresh p ->
  live (Some (fst (setInterval cb ms p))) (snd (setInterval cb ms p))
  = Some {| callback := cb; delay := ms |}.
Proof.
  unfold handles_fresh, setInterval. simpl. intros Hfresh.
  induction Hfresh as [|[h t] ts Hlt _ IH]; simpl.
  - now rewrite Nat.eqb_refl.
  - simpl in Hlt. destruct (Nat.eqb_spec h (next_handle p)); [lia | exact IH].
Qed.

Lemma clear_new (p : Process) (cb : Callback) (ms : Z) :
  handles_fresh p ->
  timers (clearInterval (Some (fst (setInterval cb ms p))) (snd (setInterval cb ms p)))
  = timers p.
Proof.
  unfold handles_fresh, setInterval. simpl. intros Hfresh.
  induction Hfresh as [|[h t] ts Hlt _ IH]; simpl.
  - now rewrite Nat.eqb_refl.
  - simpl in Hlt. destruct (Nat.eqb_spec h (next_handle p)); [lia|].
    simpl. now rewrite IH.
Qed.

Lemma live_kept (h : nat) (p : Process) (cb : Callback) (ms : Z) (t : Timer) :
  live (Some h) p = Some t -> live (Some h) (snd (setInterval cb ms p)) = Some t.
Proof.
  unfold live, setInterval. simpl.
  induction (timers p) as [|x ts IH]; simpl; [discriminate|].
  destruct (Nat.eqb (fst x) h); [auto | exact IH].
Qed.

Lemma setInterval_fresh (p : Process) (cb : Callback) (ms : Z) :
  handles_fresh p -> handles_fresh (snd (setInterval cb ms p)).
Proof.
  unfold handles_fresh, setInterval. simpl. intros Hfresh.
  apply Forall_app. split.
  - eapply Forall_impl; [|exact Hfresh]. simpl. intros t Ht. lia.
  - constructor; [simpl; lia | constructor].
Qed.

Lemma clearInterval_fresh (h : option nat) (p : Process) :
  handles_fresh p -> handles_fresh (clearInterval h p).
Proof.
  unfold handles_fresh. destruct h as [n|]; [|auto]. simpl. intros Hfresh.
  induction Hfresh as [|t ts Ht _ IH]; simpl; [constructor|].
  destruct (negb (Nat.eqb (fst t) n)); [constructor; assumption | exact IH].
Qed.

Lemma writePollers_from_process (pollers : list (option string)) {Payload : Type} :
  forall st : St Payload,
  timers (proc (writePollers_from pollers st)) = timers (proc st)
  /\ next_handle (proc (writePollers_from pollers st)) = next_handle (proc st).
Proof.
  induction pollers as [|e pollers IH]; intros st; simpl; [auto|].
  destruct (IH (write e (Some 1) st)) as [-> ->]. apply write_process.
Qed.

Lemma same_timers_fresh (p q : Process) :
  timers q = timers p -> next_handle q = next_handle p ->
  handles_fresh p -> handles_fresh q.
Proof. unfold handles_fresh. intros -> ->. auto. Qed.

Section Timers.

Context {Value : Type}.
Variable PIDS : list (PidEntry Value).

Lemma run_handles_fresh (c : Call) (st : St (Reply Value)) :
  handles_fresh (proc st) -> handles_fresh (proc (run PIDS c st)).
Proof.
  intros Hfresh. destruct c; cbn [run].
  - unfold setProtocol, with_this. destruct p as [|a [|b p]]; try exact Hfresh.
    destruct (is_digit a); exact Hfresh.
  - destruct (write_process message replies st) as [Ht Hn].
    exact (same_timers_fresh _ _ Ht Hn Hfresh).
  - destruct (write_process (getPIDByName PIDS wanted) None st) as [Ht Hn].
    exact (same_timers_fresh _ _ Ht Hn Hfresh).
  - exact Hfresh.
  - exact Hfresh.
  - exact Hfresh.
  - destruct (writePollers_from_process (activePollers (this st)) st) as [Ht Hn].
    exact (same_timers_fresh _ _ Ht Hn Hfresh).
  - unfold startPolling. apply (setInterval_fresh (proc st)). exact Hfresh.
  - unfold stopPolling. simpl. now apply clearInterval_fresh.
  - unfold connect. apply (setInterval_fresh (proc st)). exact Hfresh.
  - unfold disconnect. simpl.
    apply (same_timers_fresh (clearInterval (intervalWriter (this st)) (proc st)));
      [reflexivity | reflexivity | now apply clearInterval_fresh].
  - rewrite on_connect_fold. unfold emit. cbn [proc].
    destruct (writes_process
                ["ATZ"; "ATL0"; "ATS0"; "ATH0"; "ATE0"; "ATAT2";
                 ("ATSP" ++ protocol (this st))%string]
                (with_this (set_connected true) st)) as [Ht Hn].
    exact (same_timers_fresh _ _ Ht Hn Hfresh).
  - unfold data_listener. now rewrite on_data_proc.
  - unfold intervalWriter_tick.
    destruct (queue (proc st)) as [|command rest]; [exact Hfresh|].
    destruct (connected (this st)); [|exact Hfresh].
    destruct outcome as [[err|]|err]; simpl; try exact Hfresh.
    apply (same_timers_fresh (clearInterval (intervalWriter (this st)) (proc st)));
      [now destruct (intervalWriter (this st))
      | now destruct (intervalWriter (this st))
      | now apply clearInterval_fresh].
  - destruct (writePollers_from_process (activePollers (this st)) st) as [Ht Hn].
    exact (same_timers_fresh _ _ Ht Hn Hfresh).
Qed.

Lemma run_all_handles_fresh (calls : list Call) :
  forall st : St (Reply Value),
  handles_fresh (proc st) -> handles_fresh (proc (run_all PIDS calls st)).
Proof.
  induction calls as [|c calls IH]; intros st Hfresh; [exact Hfresh|].
  unfold run_all in *. simpl. apply IH, run_handles_fresh, Hfresh.
Qed.

(** X6. In a process reached from its start by calls of the reader, the
    handles of the live timers are older than the next handle. There,
    [startPolling] starts a live timer and stores its handle, and
    [stopPolling] right after it leaves the timers as they were before.
    [stopPolling] does not forget the handle and a second [stopPolling]
    changes nothing. A second [startPolling] without a [stopPolling] in
    between overwrites the handle: the first timer stays live, and the
    [stopPolling] that follows cancels the second timer only. *)
Theorem X6_polling_timers :
  (forall (calls : list Call) (r : OBDReader),
     handles_fresh (proc (run_all PIDS calls
       {| proc := initial_process; this := r; emitted := [] |})))
  /\ (forall (st : St (Reply Value)) (interval : Z),
        handles_fresh (proc st) ->
        let st1 := startPolling (Some interval) st in
        live (pollerInterval (this st1)) (proc st1)
        = Some {| callback := PollerTick; delay := interval |}
        /\ timers (proc (stopPolling st1)) = timers (proc st)
        /\ stopPolling (stopPolling st1) = stopPolling st1
        /\ (forall interval' : Z,
              let st3 := stopPolling (startPolling (Some interval') st1) in
              live (pollerInterval (this st1)) (proc st3)
              = Some {| callback := PollerTick; delay := interval |}
              /\ live (pollerInterval (this st3)) (proc st3) = None
              /\ pollerInterval (this st3) <> pollerInterval (this st1))).
Proof.
  split.
  - intros calls r. apply run_all_handles_fresh. constructor.
  - intros st interval Hfresh st1.
    assert (Hfresh1 : handles_fresh (proc st1))
      by apply (setInterval_fresh (proc st) PollerTick interval Hfresh).
    split; [apply (live_new (proc st) PollerTick interval Hfresh)|].
    split; [apply (clear_new (proc st) PollerTick interval Hfresh)|].
    split.
    + unfold stopPolling, with_proc. simpl. f_equal. f_equal.
      induction (timers (proc st) ++ _) as [|t ts IH]; simpl; [reflexivity|].
      destruct (negb (Nat.eqb (fst t) (next_handle (proc st)))) eqn:E; simpl;
        [rewrite E; now f_equal | exact IH].
    + intros interval' st3.
      assert (Hproc3 : proc st3
                = clearInterval (Some (next_handle (proc st1)))
                    (snd (setInterval PollerTick interval' (proc st1))))
        by reflexivity.
      assert (Hh1 : pollerInterval (this st1) = Some (next_handle (proc st)))
        by reflexivity.
      assert (Hh3 : pollerInterval (this st3) = Some (next_handle (proc st1)))
        by reflexivity.
      assert (Hnext : next_handle (proc st1) = S (next_handle (proc st)))
        by reflexivity.
      rewrite Hproc3, Hh1, Hh3. split; [|split].
      * rewrite live_other by (rewrite Hnext; intros H; injection H; lia).
        apply live_kept.
        exact (live_new (proc st) PollerTick interval Hfresh).
      * apply live_cleared.
      * rewrite Hnext. intros H. injection H. lia.
Qed.

End Timers.

Lemma X6_polling_timers_witness :
  let st := run_all sample_PIDS [CallConnect; FireOnConnect] fresh_state in
  let st1 := startPolling (Some 200) st in
  live (pollerInterval (this st1)) (proc st1)
  = Some {| callback := PollerTick; delay := 200 |}
  /\ timers (proc (stopPolling st1)) = timers (proc st).
Proof.
  intros st st1.
  destruct (X6_polling_timers sample_PIDS) as [Hreach Hstart].
  destruct (Hstart st 200 (Hreach [CallConnect; FireOnConnect] new_OBDReader))
    as (Hlive & Hstop & _).
  split; [exact Hlive | exact Hstop].
Defined.

(** ** Disconnecting *)

Section Disconnect.

Context {Value : Type}.
Variable PIDS : list (PidEntry Value).

(** X7. [disconnect] empties the queue, marks the reader as not
    connected, closes the port and cancels the drain timer, without
    emitting an event. It cancels no other timer, so a poller timer keeps
    running, and it keeps the set of active pollers and the text held by
    the framer. After [connect], in a process whose live handles are
    older than the next handle, it leaves the timers as they were before
    [connect]. *)
Theorem X7_disconnect :
  forall (st : St (Reply Value)) (cb : bool),
    let st' := disconnect cb st in
    (queue (proc st') = []
     /\ connected (this st') = false
     /\ isOpen (btSerial (this st')) = false
     /\ live (intervalWriter (this st)) (proc st') = None
     /\ emitted st' = emitted st)
    /\ ((forall h, h <> intervalWriter (this st) -> live h (proc st') = live h (proc st))
        /\ activePollers (this st') = activePollers (this st)
        /\ pollerInterval (this st') = pollerInterval (this st)
        /\ receivedData (this st') = receivedData (this st)
        /\ written (btSerial (this st')) = written (btSerial (this st)))
    /\ (handles_fresh (proc st) ->
        timers (proc (disconnect cb (connect st))) = timers (proc st)).
Proof.
  intros st cb st'. subst st'. unfold disconnect. simpl.
  split; [|split].
  - repeat split. apply (live_cleared (intervalWriter (this st)) (proc st)).
  - repeat split. intros h Hne.
    exact (live_other h (intervalWriter (this st)) (proc st) Hne).
  - intros Hfresh. exact (clear_new (proc st) IntervalWriter writeDelay Hfresh).
Qed.

Lemma run_stays_disconnected (c : Call) (st : St (Reply Value)) :
  connects c = false ->
  connected (this st) = false -> queue (proc st) = [] ->
  connected (this (run PIDS c st)) = false /\ queue (proc (run PIDS c st)) = [].
Proof.
  intros Hcall Hc Hq. destruct c; cbn [run]; try discriminate Hcall.
  - unfold setProtocol, with_this. destruct p as [|a [|b p]]; auto.
    destruct (is_digit a); auto.
  - rewrite (write_not_connected message replies st Hc). auto.
  - unfold requestValueByName. rewrite (write_not_connected _ None st Hc). auto.
  - auto.
  - auto.
  - auto.
  - unfold writePollers. generalize (activePollers (this st)).
    intros pollers. revert st Hc Hq.
    induction pollers as [|e pollers IH]; intros st Hc Hq; simpl; [auto|].
    apply IH; rewrite (write_not_connected e (Some 1) st Hc); assumption.
  - unfold startPolling. simpl. auto.
  - unfold stopPolling. simpl. split; [exact Hc|].
    now destruct (pollerInterval (this st)).
  - unfold connect. simpl. auto.
  - unfold disconnect. simpl. auto.
  - unfold data_listener. rewrite on_data_spec.
    destruct (_ <? 2)%nat; simpl; [auto|].
    split; [|exact Hq]. now destruct (messages_of _).
  - rewrite tick_idle by now left. auto.
  - unfold writePollers. generalize (activePollers (this st)).
    intros pollers. revert st Hc Hq.
    induction pollers as [|e pollers IH]; intros st Hc Hq; simpl; [auto|].
    apply IH; rewrite (write_not_connected e (Some 1) st Hc); assumption.
Qed.

(** X8. A reader that is not connected, in front of an empty queue,
    stays so until the success callback of a connection runs: whatever
    the application calls and whatever the transport or the timers
    deliver in between, no command enters the queue. This is the state
    of a new reader, and the state that [disconnect] leaves. *)
Theorem X8_nothing_queued_while_disconnected :
  forall (calls : list Call) (st : St (Reply Value)),
    forallb (fun c => negb (connects c)) calls = true ->
    connected (this st) = false ->
    queue (proc st) = [] ->
    connected (this (run_all PIDS calls st)) = false
    /\ queue (proc (run_all PIDS calls st)) = [].
Proof.
  induction calls as [|c calls IH]; intros st Hcalls Hc Hq; [auto|].
  simpl in Hcalls. apply andb_true_iff in Hcalls as [Hcall Hcalls].
  apply negb_true_iff in Hcall.
  destruct (run_stays_disconnected c st Hcall Hc Hq) as [Hc' Hq'].
  unfold run_all in *. simpl. now apply IH.
Qed.

End Disconnect.

Lemma X7_disconnect_witness :
  let st := run_all sample_PIDS [CallConnect; FireOnConnect] fresh_state in
  timers (proc (disconnect false (connect st))) = timers (proc st).
Proof.
  intros st.
  destruct (X7_disconnect st false) as (_ & _ & Hround).
  apply Hround.
  apply (run_all_handles_fresh sample_PIDS [CallConnect; FireOnConnect] fresh_state).
  constructor.
Defined.

Lemma X8_nothing_queued_while_disconnected_witness :
  let st := run_all sample_PIDS
              [CallConnect; FireOnConnect; CallAddPoller "rpm"; CallDisconnect false;
               CallWrite (Some "010C") (Some 1); CallRequestValueByName "vss";
               FirePollerTick; FireIntervalWriter (Accepted None)]
              fresh_state in
  connected (this st) = false /\ queue (proc st) = [].
Proof.
  intros st.
  apply (X8_nothing_queued_while_disconnected sample_PIDS
           [CallWrite (Some "010C") (Some 1); CallRequestValueByName "vss";
            FirePollerTick; FireIntervalWriter (Accepted None)]
           (run_all sample_PIDS
              [CallConnect; FireOnConnect; CallAddPoller "rpm"; CallDisconnect false]
              fresh_state));
    reflexivity.
Defined.

(** ** The outbound wire format *)

Section WireFormat.

Context {Value : Type}.
Variable PIDS : list (PidEntry Value).

Lemma write_wire_ok {Payload : Type} (message : option string) (replies : option Z)
    (st : St Payload) :
  wire_ok st -> wire_ok (write message replies st).
Proof.
  unfold wire_ok. intros [Hq Hw]. unfold write.
  destruct (connected (this st)); [|auto].
  destruct (_ <? 256)%nat; [|auto].
  destruct (negb _); simpl; (split; [|exact Hw]);
    (apply Forall_app; split; [exact Hq|]); (constructor; [|constructor]);
    eexists; reflexivity.
Qed.

Lemma writePollers_from_wire_ok {Payload : Type} (pollers : list (option string)) :
  forall st : St Payload, wire_ok st -> wire_ok (writePollers_from pollers st).
Proof.
  induction pollers as [|e pollers IH]; intros st Hok; simpl; [exact Hok|].
  now apply IH, write_wire_ok.
Qed.

Lemma writes_wire_ok {Payload : Type} (commands : list string) :
  forall st : St Payload,
  wire_ok st -> wire_ok (fold_left (fun st c => write (Some c) None st) commands st).
Proof.
  induction commands as [|c commands IH]; intros st Hok; simpl; [exact Hok|].
  now apply IH, write_wire_ok.
Qed.

Lemma run_wire_ok (c : Call) (st : St (Reply Value)) :
  wire_ok st -> wire_ok (run PIDS c st).
Proof.
  intros Hok. destruct c; cbn [run].
  - unfold setProtocol, with_this. destruct p as [|a [|b p]]; try exact Hok.
    destruct (is_digit a); exact Hok.
  - now apply write_wire_ok.
  - now apply write_wire_ok.
  - exact Hok.
  - exact Hok.
  - exact Hok.
  - now apply writePollers_from_wire_ok.
  - exact Hok.
  - destruct Hok as [Hq Hw]. unfold stopPolling, wire_ok. simpl. split; [|exact Hw].
    now destruct (pollerInterval (this st)).
  - destruct Hok as [Hq Hw]. unfold connect, wire_ok. simpl. split; [exact Hq|constructor].
  - destruct Hok as [Hq Hw]. unfold disconnect, wire_ok. simpl. split; [constructor|exact Hw].
  - rewrite on_connect_fold. apply writes_wire_ok. exact Hok.
  - destruct Hok as [Hq Hw]. unfold data_listener, wire_ok.
    rewrite on_data_spec.
    destruct (_ <? 2)%nat; simpl; [auto|].
    split; [exact Hq|]. now destruct (messages_of _).
  - destruct Hok as [Hq Hw]. unfold intervalWriter_tick, wire_ok.
    destruct (queue (proc st)) as [|command rest] eqn:E; [rewrite E; auto|].
    destruct (connected (this st)); [|rewrite E; auto].
    inversion Hq; subst.
    assert (Hw' : Forall terminated (written (btSerial (this st)) ++ [command]))
      by (apply Forall_app; split; [exact Hw | constructor; [assumption|constructor]]).
    destruct outcome as [[err|]|err]; simpl; try (split; assumption).
    split; [|exact Hw']. now destruct (intervalWriter (this st)).
  - now apply writePollers_from_wire_ok.
Qed.

(** X9. Every command is written to the port with its carriage return.
    In a reader where every command of the queue and every buffer handed
    to the port so far ends with a carriage return, this stays so after
    any call of the application, of the transport or of a timer; and it
    is so in a new reader of a new process. So everything that a reader
    hands to its port is a command that ends with a carriage return. *)
Theorem X9_commands_end_with_carriage_return :
  (forall (calls : list Call) (st : St (Reply Value)),
     wire_ok st -> wire_ok (run_all PIDS calls st))
  /\ (forall (calls : list Call) (command : string),
        In command (written (btSerial (this (run_all PIDS calls fresh_state)))) ->
        exists body, command = (body ++ CR)%string).
Proof.
  assert (Hall : forall (calls : list Call) (st : St (Reply Value)),
            wire_ok st -> wire_ok (run_all PIDS calls st)).
  { induction calls as [|c calls IH]; intros st Hok; [exact Hok|].
    unfold run_all in *. simpl. apply IH, run_wire_ok, Hok. }
  split; [exact Hall|].
  intros calls command Hin.
  destruct (Hall calls fresh_state) as [_ Hw]; [split; constructor|].
  rewrite Forall_forall in Hw. exact (Hw command Hin).
Qed.

End WireFormat.

Lemma X9_commands_end_with_carriage_return_witness :
  exists body,
    ("ATZ" ++ CR)%string = (body ++ CR)%string
    /\ In ("ATZ" ++ CR)%string
         (written (btSerial (this (run_all sample_PIDS
            [CallConnect; FireOnConnect; FireIntervalWriter (Accepted None)]
            fresh_state)))).
Proof.
  destruct (proj2 (X9_commands_end_with_carriage_return sample_PIDS)
              [CallConnect; FireOnConnect; FireIntervalWriter (Accepted None)]
              ("ATZ" ++ CR)%string (or_introl eq_refl)) as [body Hbody].
  exists body. split; [exact Hbody | left; reflexivity].
Defined.

(** ** The shape of a reply *)

Section ReplyShape.

Context {Value : Type}.
Variable PIDS : list (PidEntry Value).

Lemma last_with_mode_cons (e : PidEntry Value) (table : list (PidEntry Value))
    (m : string) :
  last_with_mode (e :: table) m
  = match last_with_mode table m with
    | Some e' => Some e'
    | None => if String.eqb (mode e) m then Some e else None
    end.
Proof.
  unfold last_with_mode. simpl.
  induction (rev table) as [|x l IH]; simpl; [reflexivity|].
  destruct (String.eqb (mode x) m); [reflexivity | exact IH].
Qed.

Lemma decode_43_spec (table : list (PidEntry Value)) (valueArray : list string) :
  forall reply : Reply Value,
  decode_43 table valueArray reply
  = match last_with_mode table "03" with
    | Some e =>
        {| reply_value := Some (Converted (convertToUseful e (tokens_at valueArray 1 6)));
           reply_name := Some (name e);
           reply_mode := reply_mode reply;
           reply_pid := reply_pid reply |}
    | None => reply
    end.
Proof.
  induction table as [|e table IH]; intros reply; [reflexivity|].
  simpl. rewrite last_with_mode_cons.
  destruct (String.eqb (mode e) "03"); rewrite IH;
    now destruct (last_with_mode table "03").
Qed.

(** The four cases of [parseOBDCommand]. *)
Lemma parse_cases (hexString : string) :
  parseOBDCommand PIDS hexString
  = if is_status hexString then
      {| reply_value := Some (Literal hexString);
         reply_name := None; reply_mode := None; reply_pid := None |}
    else if Js.strict_eq (nth_error (byte_tokens hexString) 0) (Some "41") then
      match first_with_pid PIDS (nth_error (byte_tokens hexString) 1) with
      | Some e =>
          {| reply_value := convert_by_width e (byte_tokens hexString);
             reply_name := Some (name e);
             reply_mode := nth_error (byte_tokens hexString) 0;
             reply_pid := nth_error (byte_tokens hexString) 1 |}
      | None =>
          {| reply_value := None; reply_name := None;
             reply_mode := nth_error (byte_tokens hexString) 0;
             reply_pid := nth_error (byte_tokens hexString) 1 |}
      end
    else if Js.strict_eq (nth_error (byte_tokens hexString) 0) (Some "43") then
      match last_with_mode PIDS "03" with
      | Some e =>
          {| reply_value :=
               Some (Converted (convertToUseful e (tokens_at (byte_tokens hexString) 1 6)));
             reply_name := Some (name e);
             reply_mode := nth_error (byte_tokens hexString) 0;
             reply_pid := None |}
      | None =>
          {| reply_value := None; reply_name := None;
             reply_mode := nth_error (byte_tokens hexString) 0;
             reply_pid := None |}
      end
    else empty_reply.
Proof.
  unfold parseOBDCommand.
  destruct (is_status hexString); [reflexivity|].
  destruct (Js.strict_eq (nth_error (byte_tokens hexString) 0) (Some "41"));
    [apply decode_41_spec|].
  destruct (Js.strict_eq (nth_error (byte_tokens hexString) 0) (Some "43"));
    [apply decode_43_spec | reflexivity].
Qed.

Lemma convert_by_width_shape (e : PidEntry Value) (valueArray : list string) :
  convert_by_width e valueArray = None
  \/ exists v, convert_by_width e valueArray = Some (Converted v).
Proof.
  unfold convert_by_width.
  destruct (bytes e =? 1); [right; eexists; reflexivity|].
  destruct (bytes e =? 2); [right; eexists; reflexivity|].
  destruct (bytes e =? 4); [right; eexists; reflexivity|].
  destruct (bytes e =? 8); [right; eexists; reflexivity | now left].
Qed.

(** X10. How the fields of a reply go together, for every table and
    every frame. The value is a status literal exactly when the frame is
    one of the five status texts, compared as they are, blanks included,
    and then the value is the frame and no other field is set. Else the
    mode, when set, is the first byte token and is ["41"] or ["43"]; when
    it is not set the reply is empty. A pid is set only with the mode
    ["41"]. A converted value is always together with a name, and a name
    always with a mode. *)
Theorem X10_reply_shape :
  forall hexString : string,
    let r := parseOBDCommand PIDS hexString in
    (is_status hexString = true ->
     r = {| reply_value := Some (Literal hexString);
            reply_name := None; reply_mode := None; reply_pid := None |})
    /\ (is_status hexString = false ->
        (forall text, reply_value r <> Some (Literal text))
        /\ (reply_mode r = None -> r = empty_reply)
        /\ (forall m, reply_mode r = Some m ->
              nth_error (byte_tokens hexString) 0 = Some m /\ (m = "41" \/ m = "43")))
    /\ (reply_pid r <> None -> reply_mode r = Some "41")
    /\ (forall v, reply_value r = Some (Converted v) -> reply_name r <> None)
    /\ (reply_name r <> None -> reply_mode r <> None).
Proof.
  intros hexString r. subst r. rewrite parse_cases.
  destruct (is_status hexString) eqn:Est.
  - split; [reflexivity|]. split; [discriminate|]. simpl.
    split; [congruence|]. split; [discriminate | congruence].
  - split; [discriminate|].
    destruct (Js.strict_eq (nth_error (byte_tokens hexString) 0) (Some "41")) eqn:E41.
    + apply strict_eq_true in E41. rewrite E41.
      destruct (first_with_pid PIDS (nth_error (byte_tokens hexString) 1)) as [e|];
        simpl.
      * split; [intros _; split; [|split]|split; [|split]]; try congruence.
        -- intros text. destruct (convert_by_width_shape e (byte_tokens hexString))
             as [->|[v ->]]; discriminate.
        -- intros m Hm. injection Hm as <-. auto.
      * split; [intros _; split; [|split]|split; [|split]]; try congruence.
        intros m Hm. injection Hm as <-. auto.
    + destruct (Js.strict_eq (nth_error (byte_tokens hexString) 0) (Some "43")) eqn:E43.
      * apply strict_eq_true in E43. rewrite E43.
        destruct (last_with_mode PIDS "03") as [e|]; simpl;
          (split; [intros _; split; [|split]|split; [|split]]); try congruence;
          intros m Hm; injection Hm as <-; auto.
      * simpl. split; [intros _; split; [|split]|split; [|split]]; congruence.
Qed.

(** X11. A frame whose first byte token is ["43"]. The reply has the mode
    ["43"] and no pid. The loop over the table does not stop at the first
    entry of mode ["03"]: when the table has such entries, the last of
    them gives the name, and the value is its formula applied to the six
    byte tokens that follow the mode, those beyond the end of the frame
    being [undefined]; when it has none, the reply has the mode only. *)
Theorem X11_decode_mode_43 :
  forall hexString : string,
    nth_error (byte_tokens hexString) 0 = Some "43" ->
    (forall e, last_with_mode PIDS "03" = Some e ->
       In e PIDS /\ mode e = "03"
       /\ parseOBDCommand PIDS hexString
          = {| reply_value :=
                 Some (Converted (convertToUseful e
                         (tokens_at (byte_tokens hexString) 1 6)));
               reply_name := Some (name e);
               reply_mode := Some "43";
               reply_pid := None |})
    /\ ((forall e, In e PIDS -> mode e <> "03") ->
        parseOBDCommand PIDS hexString
        = {| reply_value := None; reply_name := None;
             reply_mode := Some "43"; reply_pid := None |}).
Proof.
  intros hexString H0.
  assert (Hst : is_status hexString = false).
  { destruct (is_status hexString) eqn:E; [|reflexivity]. exfalso. revert E H0.
    unfold is_status. rewrite !orb_true_iff, !String.eqb_eq.
    intros [[[[-> | ->] | ->] | ->] | ->]; vm_compute; discriminate. }
  rewrite parse_cases, Hst, H0. simpl. split.
  - intros e He. rewrite He. unfold last_with_mode in He.
    apply find_some in He as [Hin Hm]. apply in_rev in Hin.
    apply String.eqb_eq in Hm. auto.
  - intros Hnone.
    destruct (last_with_mode PIDS "03") as [e|] eqn:He; [|reflexivity].
    unfold last_with_mode in He. apply find_some in He as [Hin Hm].
    apply in_rev in Hin. apply String.eqb_eq in Hm. now destruct (Hnone e Hin).
Qed.

End ReplyShape.

Lemma X10_reply_shape_witness :
  parseOBDCommand sample_PIDS "NO DATA"
  = {| reply_value := Some (Literal "NO DATA");
       reply_name := None; reply_mode := None; reply_pid := None |}
  /\ (reply_mode (parseOBDCommand sample_PIDS "NODATA") = None ->
      parseOBDCommand sample_PIDS "NODATA" = empty_reply).
Proof.
  destruct (X10_reply_shape sample_PIDS "NO DATA") as (Hstatus & _).
  destruct (X10_reply_shape sample_PIDS "NODATA") as (_ & Hother & _).
  split; [exact (Hstatus eq_refl) | exact (proj1 (proj2 (Hother eq_refl)))].
Defined.

Lemma X11_decode_mode_43_witness :
  parseOBDCommand sample_PIDS "43 0133 0000"
  = {| reply_value :=
         Some (Converted [Some "01"; Some "33"; Some "00"; Some "00"; None; None]);
       reply_name := Some "requestdtc";
       reply_mode := Some "43";
       reply_pid := None |}.
Proof.
  destruct (X11_decode_mode_43 sample_PIDS "43 0133 0000" eq_refl) as [Hsome _].
  destruct (Hsome _ eq_refl) as (_ & _ & Hparse). exact Hparse.
Defined.

(** ** Byte tokens *)

Lemma pairs_ind (P : string -> Prop) :
  P "" ->
  (forall a, P (String a "")) ->
  (forall a b rest, P rest -> P (String a (String b rest))) ->
  forall s, P s.
Proof.
  intros Hnil Hone Htwo s.
  assert (H : P s /\ forall a, P (String a s)).
  { induction s as [|b s [IH1 IH2]]; [split; [exact Hnil | exact Hone]|].
    split; [apply IH2|]. intros a. now apply Htwo. }
  exact (proj1 H).
Qed.

Lemma occurs_remove (c : ascii) (s : string) : occurs c (Js.remove c s) = false.
Proof.
  induction s as [|a s IH]; simpl; [reflexivity|].
  destruct (Ascii.eqb a c) eqn:E; [exact IH|]. simpl. now rewrite E.
Qed.

Lemma pairs_join (s : string) : join (Js.pairs s) = s.
Proof.
  induction s as [|a|a b rest IH] using pairs_ind; simpl; [reflexivity..|].
  now rewrite IH.
Qed.

Lemma pairs_length (s : string) :
  List.length (Js.pairs s) = Nat.div2 (S (String.length s)).
Proof.
  induction s as [|a|a b rest IH] using pairs_ind; simpl; [reflexivity..|].
  now rewrite IH.
Qed.

Lemma pairs_widths (s : string) :
  forall (i : nat) (t : string),
  nth_error (Js.pairs s) i = Some t ->
  String.length t = 2%nat
  \/ (String.length t = 1%nat /\ S i = List.length (Js.pairs s)
      /\ Nat.odd (String.length s) = true).
Proof.
  induction s as [|a|a b rest IH] using pairs_ind; intros i t Hnth.
  - now destruct i.
  - destruct i as [|[|i]]; simpl in Hnth; try discriminate.
    injection Hnth as <-. right. auto.
  - destruct i as [|i]; simpl in Hnth.
    + injection Hnth as <-. now left.
    + destruct (IH i t Hnth) as [H2|(H1 & Hlast & Hodd)]; [now left|].
      right. split; [exact H1|]. split; [simpl; now rewrite Hlast|].
      change (String.length (String a (String b rest))) with (S (S (String.length rest))).
      now rewrite Nat.odd_succ_succ.
Qed.

Lemma pairs_free (c : ascii) (s : string) :
  occurs c s = false -> Forall (fun t => occurs c t = false) (Js.pairs s).
Proof.
  induction s as [|a|a b rest IH] using pairs_ind; simpl; intros H.
  - constructor.
  - constructor; [exact H | constructor].
  - apply orb_false_iff in H as [Ha H]. apply orb_false_iff in H as [Hb H].
    constructor; [simpl; now rewrite Ha, Hb | now apply IH].
Qed.

Section RoundTrip.

Context {Value : Type}.
Variable PIDS : list (PidEntry Value).

(** X12. The byte tokens of a frame are its text without the blanks, cut
    in pieces of two characters from the left. Put together again they
    give that text; none holds a blank; they are half as many as the
    characters, rounded up; each has two characters, but for the last
    one of a text of odd length, which has one. *)
Theorem X12_byte_tokens :
  forall hexString : string,
    join (byte_tokens hexString) = Js.remove space hexString
    /\ Forall (fun t => occurs space t = false) (byte_tokens hexString)
    /\ List.length (byte_tokens hexString)
       = Nat.div2 (S (String.length (Js.remove space hexString)))
    /\ (forall (i : nat) (t : string),
          nth_error (byte_tokens hexString) i = Some t ->
          String.length t = 2%nat
          \/ (String.length t = 1%nat
              /\ S i = List.length (byte_tokens hexString)
              /\ Nat.odd (String.length (Js.remove space hexString)) = true)).
Proof.
  intros hexString. unfold byte_tokens.
  split; [apply pairs_join|].
  split; [apply pairs_free, occurs_remove|].
  split; [apply pairs_length | apply pairs_widths].
Qed.

(** X13. From a request to its reply. Let a name of the PID table lead to
    an entry with a pid of two characters, none of them a blank, and let
    that entry be the first of the table with this pid. Then
    [getPIDByName] gives the mode of the entry followed by the pid, and
    every frame made of ["41"], the pid and any data is decoded to a
    reply with that name, the mode ["41"] and the pid. *)
Theorem X13_request_reply_round_trip :
  forall (wanted : string) (e : PidEntry Value) (a b : ascii) (data : string),
    first_with_name PIDS wanted = Some e ->
    pid e = Some (String a (String b "")) ->
    Ascii.eqb a space = false -> Ascii.eqb b space = false ->
    first_with_pid PIDS (pid e) = Some e ->
    let r := parseOBDCommand PIDS ("41" ++ String a (String b data))%string in
    getPIDByName PIDS wanted = Some (mode e ++ String a (String b ""))%string
    /\ reply_name r = Some wanted
    /\ reply_mode r = Some "41"
    /\ reply_pid r = pid e
    /\ reply_value r = convert_by_width e (byte_tokens ("41" ++ String a (String b data))).
Proof.
  intros wanted e a b data Hname Hpid Ha Hb Hfirst r.
  assert (Htok : byte_tokens ("41" ++ String a (String b data))
                 = "41" :: String a (String b "") :: Js.pairs (Js.remove space data)).
  { unfold byte_tokens. simpl. now rewrite Ha, Hb. }
  split.
  - rewrite getPIDByName_spec, Hname. simpl. unfold command_of. now rewrite Hpid.
  - subst r. rewrite parse_cases, Htok. simpl. rewrite <- Hpid, Hfirst. simpl.
    unfold first_with_name in Hname. apply find_some in Hname as [_ Heq].
    apply String.eqb_eq in Heq. rewrite Heq. auto.
Qed.

End RoundTrip.

Lemma X12_byte_tokens_witness :
  byte_tokens "41 0C 1A F" = ["41"; "0C"; "1A"; "F"]
  /\ (String.length "F" = 2%nat
      \/ (String.length "F" = 1%nat
          /\ 4%nat = List.length (byte_tokens "41 0C 1A F")
          /\ Nat.odd (String.length (Js.remove space "41 0C 1A F")) = true)).
Proof.
  split; [reflexivity|].
  exact (proj2 (proj2 (proj2 (X12_byte_tokens "41 0C 1A F"))) 3%nat "F" eq_refl).
Defined.

Lemma X13_request_reply_round_trip_witness :
  getPIDByName sample_PIDS "rpm" = Some "010C"
  /\ reply_name (parseOBDCommand sample_PIDS "410C 1A F8") = Some "rpm".
Proof.
  destruct (X13_request_reply_round_trip sample_PIDS "rpm" _ "0" "C" " 1A F8"
              eq_refl eq_refl eq_refl eq_refl eq_refl) as (Hget & Hname & _).
  split; [exact Hget | exact Hname].
Defined.

(** ** Frames and the cuts of the transport *)

Lemma occurs_app (c : ascii) (a b : string) :
  occurs c (a ++ b) = (occurs c a || occurs c b)%bool.
Proof.
  induction a as [|x a IH]; simpl; [reflexivity|].
  now rewrite IH, orb_assoc.
Qed.

Lemma occurs_here (c : ascii) (a b : string) : occurs c (a ++ String c b) = true.
Proof.
  rewrite occurs_app. simpl. rewrite Ascii.eqb_refl. apply orb_true_r.
Qed.

Lemma split_short (sep : ascii) (s : string) :
  (List.length (Js.split sep s) <? 2)%nat = negb (occurs sep s).
Proof.
  induction s as [|c s IH]; simpl; [reflexivity|].
  pose proof (split_not_nil sep s) as Hne.
  destruct (Ascii.eqb c sep); simpl.
  - destruct (Js.split sep s); [congruence | reflexivity].
  - destruct (Js.split sep s) as [|piece pieces]; [congruence|]. exact IH.
Qed.

Lemma split_absent (sep : ascii) (s : string) :
  occurs sep s = false -> Js.split sep s = [s].
Proof.
  intros H. apply split_single. apply Nat.ltb_lt.
  now rewrite split_short, H.
Qed.

Lemma split_at_first (sep : ascii) (t rest : string) :
  occurs sep t = false ->
  Js.split sep (t ++ String sep rest) = t :: Js.split sep rest.
Proof.
  induction t as [|c t IH]; simpl; intros H.
  - now rewrite Ascii.eqb_refl.
  - apply orb_false_iff in H as [Hc Ht]. rewrite Hc, (IH Ht). reflexivity.
Qed.

Lemma prompt_at_end (x y t : string) :
  (x ++ y)%string = (t ++ String prompt "")%string ->
  occurs prompt t = false -> occurs prompt x = true ->
  x = (t ++ String prompt "")%string /\ y = "".
Proof.
  revert x. induction t as [|c t IH]; intros x Heq Ht Hx.
  - destruct x as [|a x]; [discriminate|]. simpl in Heq. injection Heq as -> Hxy.
    apply append_eq_nil in Hxy as [-> ->]. auto.
  - simpl in Ht. apply orb_false_iff in Ht as [Hc Ht].
    destruct x as [|a x]; [discriminate|]. simpl in Heq. injection Heq as -> Hxy.
    simpl in Hx. rewrite Hc in Hx. simpl in Hx.
    destruct (IH x Hxy Ht Hx) as [-> ->]. auto.
Qed.

Lemma messages_of_clean_piece (m : string) : clean m -> messages_of [m] = [m].
Proof.
  intros (Hne & _ & Hcr). unfold messages_of. simpl.
  rewrite (split_absent carriage_return m Hcr). simpl.
  unfold nonempty. destruct (String.eqb_spec m ""); [contradiction | reflexivity].
Qed.

Lemma messages_of_app (a b : list string) :
  messages_of (a ++ b) = messages_of a ++ messages_of b.
Proof. unfold messages_of. apply flat_map_app. Qed.

Section Cuts.

Context {Payload : Type}.
Variable parse : string -> Payload.

Lemma on_data_keeps (data : string) (st : St Payload) :
  occurs prompt (receivedData (this st) ++ data) = false ->
  on_data parse data st
  = with_this (set_receivedData (receivedData (this st) ++ data)) st.
Proof. intros H. now rewrite on_data_spec, split_short, H. Qed.

Lemma on_data_flushes (data : string) (st : St Payload) :
  occurs prompt (receivedData (this st) ++ data) = true ->
  on_data parse data st
  = after_messages parse
      (messages_of (Js.split prompt (receivedData (this st) ++ data))) st.
Proof. intros H. now rewrite on_data_spec, split_short, H. Qed.

Lemma feed_empty_chunks (chunks : list string) :
  forall st : St Payload,
  join chunks = "" ->
  occurs prompt (receivedData (this st)) = false ->
  emitted (feed parse chunks st) = emitted st
  /\ receivedData (this (feed parse chunks st)) = receivedData (this st).
Proof.
  induction chunks as [|data chunks IH]; intros st Hjoin Hbuf; [auto|].
  simpl in Hjoin. apply append_eq_nil in Hjoin as [-> Hjoin].
  unfold feed in *. simpl.
  assert (Hcur : (receivedData (this st) ++ "")%string = receivedData (this st))
    by apply append_nil_r.
  rewrite on_data_keeps by now rewrite Hcur.
  rewrite Hcur. destruct (IH (with_this (set_receivedData (receivedData (this st))) st))
    as [He Hr]; [exact Hjoin | exact Hbuf|].
  rewrite He, Hr. auto.
Qed.

Lemma feed_one_reply (chunks : list string) :
  forall (st : St Payload) (t : string),
  occurs prompt (receivedData (this st)) = false ->
  (receivedData (this st) ++ join chunks)%string = (t ++ String prompt "")%string ->
  occurs prompt t = false ->
  let frames := filter nonempty (Js.split carriage_return t) in
  emitted (feed parse chunks st)
  = emitted st ++ map (fun m => DataReceived (parse m)) frames
  /\ (frames <> [] -> receivedData (this (feed parse chunks st)) = "").
Proof.
  induction chunks as [|data chunks IH]; intros st t Hbuf Heq Ht frames.
  - exfalso. simpl in Heq. rewrite append_nil_r in Heq.
    rewrite Heq, occurs_app in Hbuf. simpl in Hbuf.
    rewrite orb_true_r in Hbuf. discriminate.
  - simpl in Heq. rewrite <- append_assoc in Heq.
    unfold feed in *. simpl.
    destruct (occurs prompt (receivedData (this st) ++ data)) eqn:Hcur.
    + destruct (prompt_at_end _ _ t Heq Ht Hcur) as [Hall Hrest].
      rewrite (on_data_flushes data st Hcur), Hall.
      rewrite (split_at_first prompt t "" Ht). simpl (Js.split prompt "").
      change [t; ""] with ([t] ++ [""]).
      rewrite messages_of_app.
      replace (messages_of [""]) with (@nil string) by reflexivity.
      rewrite app_nil_r.
      replace (messages_of [t]) with frames
        by (unfold messages_of, frames; simpl; now rewrite app_nil_r).
      destruct (feed_empty_chunks chunks (after_messages parse frames st) Hrest)
        as [He Hr].
      { unfold after_messages. simpl. now destruct frames. }
      unfold feed in He, Hr. rewrite He, Hr. split; [reflexivity|].
      intros Hne. unfold after_messages. simpl. now destruct frames.
    + rewrite (on_data_keeps data st Hcur).
      apply (IH (with_this (set_receivedData (receivedData (this st) ++ data)) st) t);
        assumption.
Qed.

(** X14. A reply that ends with the prompt is framed in the same way
    however the transport cuts it. Let the reader hold no text, and let
    chunks arrive whose texts, put together, are a text without a prompt
    followed by one prompt. Then the reader emits one ['dataReceived']
    for every non-empty line of that text, the lines being separated by
    carriage returns, in their order, and nothing else, wherever the cuts
    between the chunks fall; when there is such a line the reader holds
    no text afterwards. *)
Theorem X14_cuts_do_not_matter :
  forall (chunks : list string) (t : string) (st : St Payload),
    receivedData (this st) = "" ->
    occurs prompt t = false ->
    join chunks = (t ++ String prompt "")%string ->
    let frames := filter nonempty (Js.split carriage_return t) in
    emitted (feed parse chunks st)
    = emitted st ++ map (fun m => DataReceived (parse m)) frames
    /\ emitted (feed parse chunks st) = emitted (feed parse [join chunks] st)
    /\ (frames <> [] -> receivedData (this (feed parse chunks st)) = "").
Proof.
  intros chunks t st Hbuf Ht Hjoin frames.
  assert (Hno : occurs prompt (receivedData (this st)) = false) by now rewrite Hbuf.
  destruct (feed_one_reply chunks st t Hno) as [He Hr];
    [now rewrite Hbuf | exact Ht|].
  destruct (feed_one_reply [join chunks] st t Hno) as [He1 _];
    [rewrite Hbuf; simpl; now rewrite append_nil_r | exact Ht|].
  split; [exact He|]. split; [now rewrite He, He1 | exact Hr].
Qed.

(** X15. Text that follows a prompt is not kept for the next chunk. When
    a chunk holds a message, a prompt and the beginning of the next
    message, the reader, which held no text, emits both at once, each as
    a frame of its own, and holds no text afterwards; the rest of the
    second message, when it arrives with its prompt, is emitted as a
    third frame. *)
Theorem X15_text_after_prompt_is_flushed :
  forall (a b c : string) (st : St Payload),
    receivedData (this st) = "" ->
    clean a -> clean b -> clean c ->
    let st1 := feed parse [(a ++ String prompt b)%string] st in
    let st2 := feed parse [(a ++ String prompt b)%string; (c ++ String prompt "")%string]
                 st in
    emitted st1 = emitted st ++ [DataReceived (parse a); DataReceived (parse b)]
    /\ receivedData (this st1) = ""
    /\ emitted st2
       = emitted st
         ++ [DataReceived (parse a); DataReceived (parse b); DataReceived (parse c)]
    /\ receivedData (this st2) = "".
Proof.
  intros a b c st Hbuf Ha Hb Hc st1 st2.
  assert (Hsplit : forall (x y : string), clean x -> occurs prompt y = false ->
            Js.split prompt (x ++ String prompt y) = [x; y]).
  { intros x y (_ & Hx & _) Hy.
    now rewrite (split_at_first prompt x y Hx), (split_absent prompt y Hy). }
  assert (Hfirst : st1 = after_messages parse [a; b] st).
  { subst st1. unfold feed. cbn [fold_left]. rewrite on_data_flushes.
    - rewrite Hbuf. cbn [append].
      rewrite (Hsplit a b Ha (proj1 (proj2 Hb))).
      change [a; b] with ([a] ++ [b]) at 1.
      now rewrite messages_of_app, !messages_of_clean_piece.
    - rewrite Hbuf. apply (occurs_here prompt a b). }
  assert (Hbuf1 : receivedData (this st1) = "") by (now rewrite Hfirst).
  assert (Hsecond : st2 = after_messages parse [c] st1).
  { subst st2. unfold feed. cbn [fold_left].
    change (on_data parse (a ++ String prompt b) st) with st1.
    rewrite on_data_flushes.
    - rewrite Hbuf1. cbn [append].
      rewrite (Hsplit c "" Hc eq_refl).
      change [c; ""] with ([c] ++ [""]).
      rewrite messages_of_app, messages_of_clean_piece by exact Hc.
      reflexivity.
    - rewrite Hbuf1. apply (occurs_here prompt c ""). }
  rewrite Hsecond, Hfirst. unfold after_messages. simpl.
  rewrite <- app_assoc. auto.
Qed.

End Cuts.

Lemma X14_cuts_do_not_matter_witness :
  let t := ("41 0C 1A F8" ++ CR ++ "41 0D 2A" ++ CR)%string in
  let chunks := ["41 0C"; " 1A F8"; (CR ++ "41")%string; " 0D 2A"; (CR ++ ">")%string] in
  emitted (feed (parseOBDCommand sample_PIDS) chunks fresh_state)
  = [DataReceived (parseOBDCommand sample_PIDS "41 0C 1A F8");
     DataReceived (parseOBDCommand sample_PIDS "41 0D 2A")]
  /\ receivedData (this (feed (parseOBDCommand sample_PIDS) chunks fresh_state)) = "".
Proof.
  intros t chunks.
  destruct (X14_cuts_do_not_matter (parseOBDCommand sample_PIDS) chunks t fresh_state
              eq_refl eq_refl eq_refl) as (He & _ & Hr).
  split; [exact He|]. apply Hr. discriminate.
Defined.

Lemma X15_text_after_prompt_is_flushed_witness :
  emitted (feed (fun m : string => m) ["410C1AF8>410D"; "2A>"] fresh_state)
  = [DataReceived "410C1AF8"; DataReceived "410D"; DataReceived "2A"].
Proof.
  assert (Hclean : forall m, m <> "" -> occurs prompt m = false ->
            occurs carriage_return m = false -> clean m)
    by (intros m H1 H2 H3; repeat split; assumption).
  destruct (X15_text_after_prompt_is_flushed (fun m : string => m)
              "410C1AF8" "410D" "2A" fresh_state eq_refl)
    as (_ & _ & He & _); try (apply Hclean; [discriminate | reflexivity | reflexivity]).
  exact He.
Defined.

(** ** A tick of the poller behind the guards of [write] *)

Section PollerGuards.

Context {Payload : Type}.

Lemma writePollers_from_guarded (pollers : list (option string)) :
  forall (st : St Payload) (room : nat),
  connected (this st) = true ->
  (List.length (queue (proc st)) + room = 256)%nat ->
  writePollers_from pollers st
  = {| proc := set_queue
                 (queue (proc st)
                  ++ map (fun e => (Js.plus_number e 1 ++ CR)%string) (firstn room pollers))
                 (proc st);
       this := this st;
       emitted := emitted st
                  ++ repeat (Error "Queue-overflow!") (List.length pollers - room) |}.
Proof.
  induction pollers as [|e pollers IH]; intros st room Hc Hroom.
  - cbn [writePollers_from]. rewrite firstn_nil. cbn [map List.length Nat.sub repeat].
    rewrite !app_nil_r. now destruct st as [[q t n] r evs].
  - cbn [writePollers_from]. destruct room as [|k].
    + rewrite (write_full e (Some 1) st Hc) by lia.
      rewrite (IH _ 0%nat); [|exact Hc|exact Hroom].
      cbn [emit this proc emitted firstn map List.length Nat.sub repeat].
      rewrite Nat.sub_0_r, <- app_assoc. reflexivity.
    + rewrite (write_enqueues_any e 1 st Hc) by lia.
      rewrite (IH _ k);
        [|exact Hc|unfold push; cbn [with_proc proc set_queue queue];
                   rewrite length_app; cbn [List.length]; lia].
      unfold push, with_proc, set_queue.
      cbn [this proc emitted queue timers next_handle firstn map List.length Nat.sub].
      rewrite <- app_assoc. reflexivity.
Qed.

Lemma writePollers_from_disconnected (pollers : list (option string)) :
  forall st : St Payload,
  connected (this st) = false ->
  writePollers_from pollers st
  = {| proc := proc st; this := this st;
       emitted := emitted st
                  ++ repeat (Error "Bluetooth device is not connected.")
                       (List.length pollers) |}.
Proof.
  induction pollers as [|e pollers IH]; intros st Hc; simpl.
  - rewrite app_nil_r. now destruct st.
  - rewrite (write_not_connected e (Some 1) st Hc), IH by exact Hc.
    simpl. now rewrite <- app_assoc.
Qed.

(** X16. What a tick of the poller does in every state of the queue. On
    a reader that is not connected it enqueues nothing and reports the
    missing connection once for every active poller; [disconnect] does
    not stop the poller timer, so this goes on after a [disconnect] until
    [stopPolling]. On a connected reader it enqueues the commands of the
    first pollers of the set, as many as the queue has room for up to 256
    commands, and reports one overflow for each of the others. *)
Theorem X16_poller_tick_guards :
  forall st : St Payload,
    (connected (this st) = false ->
     writePollers st
     = {| proc := proc st; this := this st;
          emitted := emitted st
                     ++ repeat (Error "Bluetooth device is not connected.")
                          (List.length (activePollers (this st))) |})
    /\ (forall cb : bool,
          queue (proc (writePollers (disconnect cb st))) = []
          /\ emitted (writePollers (disconnect cb st))
             = emitted st
               ++ repeat (Error "Bluetooth device is not connected.")
                    (List.length (activePollers (this st))))
    /\ (connected (this st) = true ->
        (List.length (queue (proc st)) <= 256)%nat ->
        let room := (256 - List.length (queue (proc st)))%nat in
        queue (proc (writePollers st))
        = queue (proc st)
          ++ map (fun e => (Js.plus_number e 1 ++ CR)%string)
               (firstn room (activePollers (this st)))
        /\ emitted (writePollers st)
           = emitted st
             ++ repeat (Error "Queue-overflow!")
                  (List.length (activePollers (this st)) - room)).
Proof.
  intros st. split; [|split].
  - intros Hc. now apply writePollers_from_disconnected.
  - intros cb. unfold writePollers.
    rewrite writePollers_from_disconnected by reflexivity. simpl. auto.
  - intros Hc Hle room. unfold writePollers.
    rewrite (writePollers_from_guarded _ st room Hc) by (subst room; lia).
    cbn [proc emitted set_queue queue]. auto.
Qed.

End PollerGuards.

Lemma X16_poller_tick_guards_witness :
  let st : St unit :=
    {| proc := set_queue (repeat ("ATZ" ++ CR)%string 255) initial_process;
       this := set_activePollers [Some "010C"; Some "010D"; Some "0105"]
                 (set_connected true new_OBDReader);
       emitted := [] |} in
  queue (proc (writePollers st))
  = repeat ("ATZ" ++ CR)%string 255 ++ [("010C1" ++ CR)%string]
  /\ emitted (writePollers st) = [Error "Queue-overflow!"; Error "Queue-overflow!"]
  /\ emitted (writePollers (with_this (set_connected false) st))
     = repeat (Error "Bluetooth device is not connected.") 3.
Proof.
  intros st.
  destruct (X16_poller_tick_guards st) as (_ & _ & Hon).
  destruct (X16_poller_tick_guards (with_this (set_connected false) st)) as (Hoff & _).
  assert (Hle : (List.length (queue (proc st)) <= 256)%nat)
    by (apply Nat.leb_le; vm_compute; reflexivity).
  destruct (Hon eq_refl Hle) as [Hq He].
  split; [|split].
  - rewrite Hq. vm_compute. reflexivity.
  - rewrite He. vm_compute. reflexivity.
  - now rewrite (Hoff eq_refl).
Defined.

(** ** The choice of a device *)

Lemma starts_with_ci_same (x y : string) :
  upper_text x = upper_text y -> starts_with_ci x y = true.
Proof.
  revert y. induction x as [|a x IH]; intros y H; [reflexivity|].
  destruct y as [|b y]; [discriminate|].
  simpl in H. injection H as Hab Hxy. simpl.
  now rewrite Hab, Ascii.eqb_refl, (IH y Hxy).
Qed.

Lemma search_ci_same (x y : string) :
  upper_text x = upper_text y -> search_ci x y = true.
Proof.
  intros H. destruct y; simpl; now rewrite (starts_with_ci_same _ _ H).
Qed.

Lemma search_ci_nothing (s : string) : search_ci "" s = true.
Proof. now destruct s. Qed.

Section Discovery.

Context {Payload : Type}.

Lemma inquiry_ignores (query : string) (before : list (string * string)) :
  forall (rest : list (string * string)) (st : St Payload),
  Forall (fun d => device_matches query (fst d) (snd d) = false) before ->
  inquiry query (before ++ rest) st
  = inquiry query rest
      {| proc := proc st; this := this st;
         emitted := emitted st ++ map (fun d => Debug (ignoring_text d)) before |}.
Proof.
  induction before as [|d before IH]; intros rest st Hnot; simpl.
  - rewrite app_nil_r. now destruct st.
  - inversion Hnot as [|? ? Hd Hrest]; subst. rewrite Hd, (IH rest _ Hrest).
    unfold emit. simpl. now rewrite <- app_assoc.
Qed.

(** X17. The device that [autoconnect] chooses. Of the devices that the
    inquiry reports, the first whose address or name matches the query is
    chosen: the reader emits one debug message ['Ignoring device'] for
    every device reported before it, then ['Found device'] for it, and
    looks at no later device. When the inquiry ends and no device has
    matched, the reader reports ['No suitable devices found']. A device
    matches when the query, without the characters that are not letters,
    digits or underscores, occurs in its address or in its name treated
    in the same way, whatever the case; so an empty query, or one made of
    punctuation only, matches the first device reported, and a query that
    is the address or the name, up to punctuation and case, matches that
    device. *)
Theorem X17_autoconnect_choice :
  forall (query : string) (st : St Payload),
    (forall before d after,
       Forall (fun x => device_matches query (fst x) (snd x) = false) before ->
       device_matches query (fst d) (snd d) = true ->
       inquiry query (before ++ d :: after) st
       = ({| proc := proc st; this := this st;
             emitted := emitted st
                        ++ map (fun x => Debug (ignoring_text x)) before
                        ++ [Debug (found_text d)] |},
          Some d))
    /\ (forall devices,
          Forall (fun x => device_matches query (fst x) (snd x) = false) devices ->
          inquiry query devices st
          = ({| proc := proc st; this := this st;
                emitted := emitted st
                           ++ map (fun x => Debug (ignoring_text x)) devices
                           ++ [Error "No suitable devices found"] |},
             None))
    /\ (strip_nonword query = "" ->
        forall address name, device_matches query address name = true)
    /\ (forall address name,
          upper_text (strip_nonword query) = upper_text (strip_nonword address)
          \/ upper_text (strip_nonword query) = upper_text (strip_nonword name) ->
          device_matches query address name = true).
Proof.
  intros query st. split; [|split; [|split]].
  - intros before d after Hnot Hd.
    rewrite (inquiry_ignores query before (d :: after) st Hnot). simpl.
    rewrite Hd. unfold emit. simpl. now rewrite <- app_assoc.
  - intros devices Hnot.
    rewrite <- (app_nil_r devices) at 1.
    rewrite (inquiry_ignores query devices [] st Hnot). simpl.
    unfold emit. simpl. now rewrite <- app_assoc.
  - intros Hq address name. unfold device_matches.
    rewrite Hq, search_ci_nothing. now rewrite orb_true_r.
  - intros address name [H|H]; unfold device_matches;
      rewrite (search_ci_same _ _ H), !orb_true_r; auto using orb_true_r.
Qed.

End Discovery.

Lemma X17_autoconnect_choice_witness :
  inquiry "00:1d:a5" [("AA:BB:CC:00:11:22", "Headset"); ("00:1D:A5:68:98:8B", "OBDII");
                      ("00:1D:A5:00:00:01", "Other")] (@fresh_state unit)
  = ({| proc := initial_process; this := new_OBDReader;
        emitted := [Debug "Ignoring device: Headset (AA:BB:CC:00:11:22)";
                    Debug "Found device: OBDII (00:1D:A5:68:98:8B)"] |},
     Some ("00:1D:A5:68:98:8B", "OBDII"))
  /\ device_matches "obd-ii" "00:1D:A5:68:98:8B" "OBDII" = true.
Proof.
  destruct (X17_autoconnect_choice "00:1d:a5" (@fresh_state unit))
    as (Hfirst & _ & _ & _).
  destruct (X17_autoconnect_choice (Payload := unit) "obd-ii" fresh_state)
    as (_ & _ & _ & Hsame).
  split.
  - apply (Hfirst [("AA:BB:CC:00:11:22", "Headset")] ("00:1D:A5:68:98:8B", "OBDII")
             [("00:1D:A5:00:00:01", "Other")]).
    + constructor; [reflexivity | constructor].
    + reflexivity.
  - apply Hsame. right. reflexivity.
Defined.

(** ** The text held by the framer *)

Lemma writePollers_from_instance {Payload : Type} (pollers : list (option string)) :
  forall st : St Payload, this (writePollers_from pollers st) = this st.
Proof.
  induction pollers as [|e pollers IH]; intros st; simpl; [reflexivity|].
  now rewrite IH, write_this.
Qed.

Section HeldText.

Context {Value : Type}.
Variable PIDS : list (PidEntry Value).

Lemma on_data_no_prompt {Payload : Type} (parse : string -> Payload) (data : string)
    (st : St Payload) :
  occurs prompt (receivedData (this st)) = false ->
  occurs prompt (receivedData (this (on_data parse data st))) = false.
Proof.
  intros Hbuf. rewrite on_data_spec, split_short.
  destruct (occurs prompt (receivedData (this st) ++ data)) eqn:E; simpl.
  - now destruct (messages_of _).
  - exact E.
Qed.

Lemma run_keeps_text (c : Call) (st : St (Reply Value)) :
  (forall data, c <> FireData data) ->
  receivedData (this (run PIDS c st)) = receivedData (this st).
Proof.
  intros Hc. destruct c; cbn [run].
  - unfold setProtocol, with_this. destruct p as [|a [|b p]]; try reflexivity.
    now destruct (is_digit a).
  - now rewrite write_this.
  - unfold requestValueByName. now rewrite write_this.
  - reflexivity.
  - reflexivity.
  - reflexivity.
  - unfold writePollers. now rewrite writePollers_from_instance.
  - reflexivity.
  - reflexivity.
  - reflexivity.
  - reflexivity.
  - rewrite on_connect_fold. unfold emit. cbn [this].
    generalize ["ATZ"; "ATL0"; "ATS0"; "ATH0"; "ATE0"; "ATAT2";
                ("ATSP" ++ protocol (this st))%string].
    intros commands.
    assert (H : forall s : St (Reply Value),
              this (fold_left (fun st c => write (Some c) None st) commands s) = this s).
    { induction commands as [|x commands IH]; intros s; simpl; [reflexivity|].
      now rewrite IH, write_this. }
    now rewrite H.
  - now destruct (Hc data).
  - unfold intervalWriter_tick.
    destruct (queue (proc st)); [reflexivity|].
    destruct (connected (this st)); [|reflexivity].
    now destruct outcome as [[err|]|err].
  - unfold writePollers. now rewrite writePollers_from_instance.
Qed.

(** X18. The text that the framer holds never contains a prompt. If it
    holds none before a chunk arrives, it holds none afterwards; no other
    call than the arrival of a chunk changes the text held, not even
    [disconnect] or a new connection; so the reader, from its creation
    on, never holds back a text in which a prompt has arrived. *)
Theorem X18_no_prompt_is_held :
  (forall (data : string) (st : St (Reply Value)),
     occurs prompt (receivedData (this st)) = false ->
     occurs prompt (receivedData (this (data_listener PIDS data st))) = false)
  /\ (forall (c : Call) (st : St (Reply Value)),
        (forall data, c <> FireData data) ->
        receivedData (this (run PIDS c st)) = receivedData (this st))
  /\ (forall calls : list Call,
        occurs prompt (receivedData (this (run_all PIDS calls fresh_state))) = false).
Proof.
  split; [|split].
  - intros data st. apply on_data_no_prompt.
  - apply run_keeps_text.
  - intros calls.
    assert (H : forall st : St (Reply Value),
              occurs prompt (receivedData (this st)) = false ->
              occurs prompt (receivedData (this (run_all PIDS calls st))) = false).
    { induction calls as [|c calls IH]; intros st Hst; [exact Hst|].
      unfold run_all in *. simpl. apply IH.
      destruct c; try (rewrite run_keeps_text; [exact Hst | discriminate]).
      apply on_data_no_prompt, Hst. }
    apply H. reflexivity.
Qed.

End HeldText.

Lemma X18_no_prompt_is_held_witness :
  let st := run_all sample_PIDS [FireData "41 0C"; CallDisconnect false; FireOnConnect]
              fresh_state in
  receivedData (this st) = "41 0C"
  /\ occurs prompt (receivedData (this (data_listener sample_PIDS " 1A F8>41" st))) = false.
Proof.
  intros st. split; [reflexivity|].
  apply (proj1 (X18_no_prompt_is_held sample_PIDS)). reflexivity.
Defined.
